(** * kvdi: role grants and RBAC rules

    A shallow embedding of three small parts of kvdi:

    - [pkg/util/grants] : the [RoleGrant] bitmask, its named constants,
      [Has] and [Names];
    - the [v1] RBAC [Rule] : [IsEmpty], [HasVerb], [HasResourceType],
      [HasNamespace], [MatchesResourceName], [strSliceEqual] and
      [DeepEqual];
    - the [api] handlers [GetDesktopSessionStatus] and
      [DeleteDesktopSession], which gate on a grant.

    Go's [int] is embedded in [Z]: the only operations used on a
    [RoleGrant] are [&], [|], a left shift of the constant 1 by at most 7
    and a comparison with 0, none of which can overflow, and [Z.land] /
    [Z.lor] agree with the two's complement operations on every machine
    integer.  Go strings are [string]s (sequences of bytes); string
    comparison is the byte-wise lexicographic order [String.le]. *)

From Stdlib Require Import ZArith Lia Bool Ascii String.
From stdpp Require Import base option list strings sorting gmap.

Local Open Scope Z_scope.

(** ** Package [grants] *)
Module Grants.

Definition RoleGrant := Z.

(** [1 << iota] at the [iota]-th line of the [const] block. *)
Definition iota_bit (iota : nat) : RoleGrant := Z.shiftl 1 (Z.of_nat iota).

Definition ReadUsers : RoleGrant := iota_bit 0.
Definition WriteUsers : RoleGrant := iota_bit 1.
Definition ReadRoles : RoleGrant := iota_bit 2.
Definition WriteRoles : RoleGrant := iota_bit 3.
Definition ReadTemplates : RoleGrant := iota_bit 4.
Definition WriteTemplates : RoleGrant := iota_bit 5.
Definition LaunchTemplates : RoleGrant := iota_bit 6.
Definition ReadDesktopSessions : RoleGrant := iota_bit 7.

Definition All : RoleGrant :=
  Z.lor (Z.lor (Z.lor (Z.lor (Z.lor (Z.lor (Z.lor
    ReadUsers WriteUsers)
    ReadRoles) WriteRoles)
    ReadTemplates) WriteTemplates)
    LaunchTemplates) ReadDesktopSessions.

Definition grantNames : list string :=
  [ "ReadUsers";
    "WriteUsers";
    "ReadRoles";
    "WriteRoles";
    "ReadTemplates";
    "WriteTemplates";
    "LaunchTemplates";
    "ReadDesktopSessions" ].

(** [func (r RoleGrant) Has(grant RoleGrant) bool { return r&grant != 0 }] *)
Definition Has (r grant : RoleGrant) : bool :=
  negb (Z.land r grant =? 0).

(** One iteration of the loop of [Names]: the body at index [i], with the
    accumulated [result].  The index is always below [len(grantNames)]
    (the loop guard), so the lookup cannot fail. *)
Definition Names_body (r : RoleGrant) (result : list string) (i : nat)
  : list string :=
  if negb (Z.land r (Z.shiftl 1 (Z.of_nat i)) =? 0)
  then result ++ [grantNames !!! i]
  else result.

(** [for i := 0; i < len(grantNames); i++ { ... }], starting from the nil
    slice. *)
Definition Names (r : RoleGrant) : list string :=
  foldl (Names_body r) [] (seq 0 (length grantNames)).

(** The named constants in declaration order, each with its identifier:
    the reading of "the capabilities" used to state what [Names] returns. *)
Definition declared : list (RoleGrant * string) :=
  [ (ReadUsers, "ReadUsers");
    (WriteUsers, "WriteUsers");
    (ReadRoles, "ReadRoles");
    (WriteRoles, "WriteRoles");
    (ReadTemplates, "ReadTemplates");
    (WriteTemplates, "WriteTemplates");
    (LaunchTemplates, "LaunchTemplates");
    (ReadDesktopSessions, "ReadDesktopSessions") ].

(** The names of the declared capabilities whose bit is set in [r] (all of
    the capability's bits are in [r]), in declaration order. *)
Definition names_of_set_bits (r : RoleGrant) : list string :=
  map snd (filter (fun c => Z.land r (fst c) = fst c) declared).

End Grants.

(** ** Package [v1]: RBAC rules *)
Module Rbac.

(** [type Verb string] and [type Resource string]. *)
Definition Verb := string.
Definition Resource := string.

(** Modelled from the spec: the wildcard constants [VerbAll], [ResourceAll]
    and [NamespaceAll] are declared in a file of the package that is not
    part of the sources at hand.  The field comments of [Rule] list the
    recognized options and name ["*"] as the value that matches all. *)
Definition VerbAll : Verb := "*".
Definition ResourceAll : Resource := "*".
Definition NamespaceAll : string := "*".

Record Rule := mkRule {
  Verbs : list Verb;
  Resources : list Resource;
  ResourcePatterns : list string;
  Namespaces : list string
}.

Definition IsEmpty (r : Rule) : bool :=
  (length (Verbs r) =? 0)%nat &&
  (length (Resources r) =? 0)%nat &&
  (length (ResourcePatterns r) =? 0)%nat &&
  (length (Namespaces r) =? 0)%nat.

(** *** Membership tests *)

(** [for _, item := range r.Verbs { ... }; return false] *)
Fixpoint HasVerb_range (items : list Verb) (verb : Verb) : bool :=
  match items with
  | [] => false
  | item :: rest =>
      if String.eqb item VerbAll then true
      else if String.eqb item verb then true
      else HasVerb_range rest verb
  end.

Definition HasVerb (r : Rule) (verb : Verb) : bool :=
  HasVerb_range (Verbs r) verb.

Fixpoint HasResourceType_range (items : list Resource) (resource : Resource)
  : bool :=
  match items with
  | [] => false
  | item :: rest =>
      if String.eqb item ResourceAll then true
      else if String.eqb item resource then true
      else HasResourceType_range rest resource
  end.

Definition HasResourceType (r : Rule) (resource : Resource) : bool :=
  HasResourceType_range (Resources r) resource.

Fixpoint HasNamespace_range (items : list string) (ns : string) : bool :=
  match items with
  | [] => false
  | item :: rest =>
      if String.eqb item NamespaceAll then true
      else if String.eqb item ns then true
      else HasNamespace_range rest ns
  end.

Definition HasNamespace (r : Rule) (ns : string) : bool :=
  HasNamespace_range (Namespaces r) ns.

(** *** Resource name patterns

    [regexp] is Go's standard library, not code of kvdi: the rule is
    embedded over any implementation of the two functions it calls.
    [Compile] returns a compiled expression and an error; [None] stands
    for [err != nil]. *)
Class RegexpPkg := {
  Regexp : Type;
  Compile : string -> option Regexp;
  MatchString : Regexp -> string -> bool
}.

Section MatchesResourceName.
Context {regexp : RegexpPkg}.

Fixpoint MatchesResourceName_range (patterns : list string) (name : string)
  : bool :=
  match patterns with
  | [] => false
  | pattern :: rest =>
      match Compile pattern with
      | None => MatchesResourceName_range rest name   (* continue *)
      | Some re =>
          if MatchString re name then true
          else MatchesResourceName_range rest name
      end
  end.

Definition MatchesResourceName (r : Rule) (name : string) : bool :=
  MatchesResourceName_range (ResourcePatterns r) name.

(** The patterns of a rule that compile, in order. *)
Definition compilable (patterns : list string) : list string :=
  filter (fun p => is_Some (Compile p)) patterns.
End MatchesResourceName.

(** *** Structural equality *)

(** A run-time panic (index out of range) is [None]. *)
Definition panics {A} : option A := None.

(** [for i, s := range over { if other[i] == s { continue }; return false };
    return true], entered at index [i]. *)
Fixpoint range_index_eq (over : list string) (i : nat) (other : list string)
  : option bool :=
  match over with
  | [] => Some true
  | s :: rest =>
      match other !! i with
      | None => panics
      | Some x =>
          if String.eqb x s then range_index_eq rest (S i) other
          else Some false
      end
  end.

Definition strSliceEqual (ss xx : list string) : option bool :=
  let lS := length ss in
  let lX := length xx in
  if (lS =? 0)%nat && (lX =? 0)%nat then Some true
  else if negb (lS =? lX)%nat then Some false
  else if (0 <? lS)%nat then range_index_eq ss 0 xx
  else range_index_eq xx 0 ss.

(** The statement of [strSliceEqual] that produces the result. *)
Inductive path :=
  | return_both_empty
  | return_length_differs
  | range_over_ss
  | range_over_xx.

Definition strSliceEqual_path (ss xx : list string) : path :=
  let lS := length ss in
  let lX := length xx in
  if (lS =? 0)%nat && (lX =? 0)%nat then return_both_empty
  else if negb (lS =? lX)%nat then return_length_differs
  else if (0 <? lS)%nat then range_over_ss
  else range_over_xx.

(** [sort.Strings] of Go's standard library sorts a slice of strings in
    increasing (byte-wise lexicographic) order.  Strings that compare equal
    are identical, so the result is the one sorted permutation of the
    input, whatever the algorithm; here it is computed by merge sort. *)
Definition sort_Strings (a : list string) : list string :=
  merge_sort String.le a.

(** Modelled from the spec: [DeepCopy] is generated code of the package and
    [resourcesToStrings] / [verbsToStrings] are helpers of the package, none
    of them part of the sources at hand.  The spec has [DeepEqual] "first
    take independent copies" and "convert both Rules' typed slices to their
    string/primitive representations".  On values a copy is the value
    itself; the aliasing that makes the copy matter is modelled in [Mem]. *)
Definition DeepCopy (r : Rule) : Rule :=
  mkRule (Verbs r) (Resources r) (ResourcePatterns r) (Namespaces r).

Definition resourcesToStrings (rr : list Resource) : list string :=
  map (fun r : Resource => (r : string)) rr.

Definition verbsToStrings (vv : list Verb) : list string :=
  map (fun v : Verb => (v : string)) vv.

(** Go's [a && b] where either side may panic: [b] is evaluated only when
    [a] returned [true]. *)
Definition and_then (a b : option bool) : option bool :=
  match a with
  | Some true => b
  | Some false => Some false
  | None => panics
  end.

Definition DeepEqual (r rule : Rule) : option bool :=
  let this := DeepCopy r in
  let that := DeepCopy rule in
  let thisResourceStrings := resourcesToStrings (Resources this) in
  let thisVerbStrings := verbsToStrings (Verbs this) in
  let thatResourceStrings := resourcesToStrings (Resources that) in
  let thatVerbStrings := verbsToStrings (Verbs that) in
  let thisResourceStrings := sort_Strings thisResourceStrings in
  let thisVerbStrings := sort_Strings thisVerbStrings in
  let thatResourceStrings := sort_Strings thatResourceStrings in
  let thatVerbStrings := sort_Strings thatVerbStrings in
  let thisResourcePatterns := sort_Strings (ResourcePatterns this) in
  let thisNamespaces := sort_Strings (Namespaces this) in
  let thatResourcePatterns := sort_Strings (ResourcePatterns that) in
  let thatNamespaces := sort_Strings (Namespaces that) in
  and_then (strSliceEqual thisResourceStrings thatResourceStrings)
  (and_then (strSliceEqual thisVerbStrings thatVerbStrings)
  (and_then (strSliceEqual thisResourcePatterns thatResourcePatterns)
            (strSliceEqual thisNamespaces thatNamespaces))).

End Rbac.

(** ** A regular-expression engine for a fragment of RE2

    An executable implementation of [RegexpPkg] for the fragment of Go's
    pattern syntax made of literal bytes, [.], [^], [$], grouping,
    alternation and the repetitions [*], [+], [?]; every other pattern is
    rejected.  It serves as a concrete engine on which statements that hold
    for every engine can be run. *)
Module RE2Fragment.

Local Open Scope char_scope.

Inductive re :=
  | EmptyMatch
  | Literal (c : ascii)
  | AnyCharNotNL
  | BeginText
  | EndText
  | Concat (a b : re)
  | Alternate (a b : re)
  | Star (a : re).

Definition is_meta (c : ascii) : bool :=
  existsb (Ascii.eqb c)
    ["\"; "."; "+"; "*"; "?"; "("; ")"; "|"; "["; "]"; "{"; "}"; "^"; "$"].

Definition starts_with (c : ascii) (s : string) : bool :=
  match s with
  | String c' _ => Ascii.eqb c c'
  | EmptyString => false
  end.

Definition tail (s : string) : string :=
  match s with
  | String _ rest => rest
  | EmptyString => EmptyString
  end.

(** Recursive descent; [fuel] bounds the depth of the calls. *)
Fixpoint parse_alternation (fuel : nat) (s : string) : option (re * string) :=
  match fuel with
  | O => None
  | S fuel =>
      match parse_concatenation fuel s with
      | Some (a, rest) =>
          if starts_with "|" rest then
            match parse_alternation fuel (tail rest) with
            | Some (b, rest') => Some (Alternate a b, rest')
            | None => None
            end
          else Some (a, rest)
      | None => None
      end
  end
with parse_concatenation (fuel : nat) (s : string) : option (re * string) :=
  match fuel with
  | O => None
  | S fuel =>
      match s with
      | EmptyString => Some (EmptyMatch, s)
      | String c _ =>
          if Ascii.eqb c "|" || Ascii.eqb c ")" then Some (EmptyMatch, s)
          else
            match parse_repetition fuel s with
            | Some (a, rest) =>
                match parse_concatenation fuel rest with
                | Some (b, rest') => Some (Concat a b, rest')
                | None => None
                end
            | None => None
            end
      end
  end
with parse_repetition (fuel : nat) (s : string) : option (re * string) :=
  match fuel with
  | O => None
  | S fuel =>
      match parse_atom fuel s with
      | Some (a, rest) =>
          if starts_with "*" rest then Some (Star a, tail rest)
          else if starts_with "+" rest then Some (Concat a (Star a), tail rest)
          else if starts_with "?" rest then
            Some (Alternate a EmptyMatch, tail rest)
          else Some (a, rest)
      | None => None
      end
  end
with parse_atom (fuel : nat) (s : string) : option (re * string) :=
  match fuel with
  | O => None
  | S fuel =>
      match s with
      | EmptyString => None
      | String c rest =>
          if Ascii.eqb c "(" then
            match parse_alternation fuel rest with
            | Some (a, rest') =>
                (* missing closing parenthesis *)
                if starts_with ")" rest' then Some (a, tail rest') else None
            | None => None
            end
          else if Ascii.eqb c "." then Some (AnyCharNotNL, rest)
          else if Ascii.eqb c "^" then Some (BeginText, rest)
          else if Ascii.eqb c "$" then Some (EndText, rest)
          else if Ascii.eqb c "\" then
            match rest with
            | String c' rest' =>
                if is_meta c' then Some (Literal c', rest') else None
            | EmptyString => None
            end
          else if is_meta c then None
          else Some (Literal c, rest)
      end
  end.

Definition compile (pattern : string) : option re :=
  match parse_alternation (4 * (String.length pattern + 1)) pattern with
  | Some (a, EmptyString) => Some a
  | _ => None
  end.

(** Backtracking matcher in continuation-passing style.  [at_start] tells
    whether the current position is the beginning of the text; [k] receives
    the position after the match. *)
Fixpoint matchk (r : re) (at_start : bool) (s : string)
    (k : bool -> string -> bool) {struct r} : bool :=
  match r with
  | EmptyMatch => k at_start s
  | Literal c =>
      match s with
      | String c' s' => Ascii.eqb c c' && k false s'
      | EmptyString => false
      end
  | AnyCharNotNL =>
      match s with
      | String c' s' => negb (Ascii.eqb c' "010") && k false s'
      | EmptyString => false
      end
  | BeginText => at_start && k at_start s
  | EndText =>
      match s with
      | EmptyString => k at_start s
      | String _ _ => false
      end
  | Concat a b => matchk a at_start s (fun b' s' => matchk b b' s' k)
  | Alternate a b => matchk a at_start s k || matchk b at_start s k
  | Star a =>
      (fix iterate (n : nat) (b' : bool) (s' : string) {struct n} : bool :=
         k b' s' ||
         match n with
         | O => false
         | S n' =>
             matchk a b' s'
               (fun b'' s'' =>
                  (String.length s'' <? String.length s')%nat &&
                  iterate n' b'' s'')
         end) (String.length s) at_start s
  end.

(** A match may start at any position of the text. *)
Fixpoint search (r : re) (at_start : bool) (s : string) : bool :=
  matchk r at_start s (fun _ _ => true) ||
  match s with
  | String _ s' => search r false s'
  | EmptyString => false
  end.

#[export] Instance engine : Rbac.RegexpPkg := {|
  Rbac.Regexp := re;
  Rbac.Compile := compile;
  Rbac.MatchString := fun r s => search r true s
|}.

End RE2Fragment.

(** ** Slices in memory

    A Go slice is a view [(array, offset, length)] of a backing array that
    other slices may share, and [sort.Strings] sorts the viewed segment in
    place.  [Mem] embeds [DeepEqual] over a store of backing arrays, with
    state passing, so that what the call writes is visible. *)
Module Mem.

(** Addresses of backing arrays. *)
Abbreviation loc := nat (only parsing).

(** The store: the backing arrays allocated so far, by address. *)
Abbreviation store := (list (list string)) (only parsing).

(** A slice is nil or views [len] elements of array [arr] from index
    [off].  Its capacity is left out: nothing here appends to a slice. *)
Inductive slice :=
  | Nil
  | Slice (arr : loc) (off len : nat).

Record Rule := mkRule {
  Verbs : slice;
  Resources : slice;
  ResourcePatterns : slice;
  Namespaces : slice
}.

(** The elements a slice views. *)
Definition load (h : store) (s : slice) : list string :=
  match s with
  | Nil => []
  | Slice a o n => take n (drop o (default [] (h !! a)))
  end.

Definition loadRule (h : store) (r : Rule) : Rbac.Rule :=
  Rbac.mkRule (load h (Verbs r)) (load h (Resources r))
              (load h (ResourcePatterns r)) (load h (Namespaces r)).

(** A slice is valid in a store when its segment lies within an allocated
    array. *)
Definition slice_ok (h : store) (s : slice) : bool :=
  match s with
  | Nil => true
  | Slice a o n =>
      match h !! a with
      | Some arr => (o + n <=? length arr)%nat
      | None => false
      end
  end.

Definition rule_ok (h : store) (r : Rule) : bool :=
  slice_ok h (Verbs r) && slice_ok h (Resources r) &&
  slice_ok h (ResourcePatterns r) && slice_ok h (Namespaces r).

(** State passing, with [None] for a run-time panic. *)
Definition M (A : Type) : Type := store -> option (A * store).

Definition ret {A} (x : A) : M A := fun h => Some (x, h).

Definition bind {A B} (m : M A) (k : A -> M B) : M B :=
  fun h =>
    match m h with
    | Some (x, h') => k x h'
    | None => None
    end.

Notation "'do' x <- m ; k" := (bind m (fun x => k))
  (at level 10, x name, m at level 100, k at level 200).
Notation "'exec' m ; k" := (bind m (fun _ => k))
  (at level 10, m at level 100, k at level 200).

(** [make([]T, len(s))] followed by [copy]: a new backing array holding
    the elements of [s]. *)
Definition make_copy (s : slice) : M slice :=
  fun h =>
    let elems := load h s in
    Some (Slice (length h) 0 (length elems), h ++ [elems]).

(** Modelled from the spec: [DeepCopy] is generated code that is not part
    of the sources at hand; the spec has [DeepEqual] "first take independent
    copies".  Each field that is not nil is copied to a new array. *)
Definition DeepCopy_field (s : slice) : M slice :=
  match s with
  | Nil => ret Nil
  | Slice _ _ _ => make_copy s
  end.

Definition DeepCopy (r : Rule) : M Rule :=
  do verbs <- DeepCopy_field (Verbs r);
  do resources <- DeepCopy_field (Resources r);
  do resourcePatterns <- DeepCopy_field (ResourcePatterns r);
  do namespaces <- DeepCopy_field (Namespaces r);
  ret (mkRule verbs resources resourcePatterns namespaces).

(** Modelled from the spec: [resourcesToStrings] and [verbsToStrings] are
    helpers that are not part of the sources at hand; the spec has them
    "convert both Rules' typed slices to their string/primitive
    representations".  The result is a new slice of strings. *)
Definition resourcesToStrings (rr : slice) : M slice := make_copy rr.
Definition verbsToStrings (vv : slice) : M slice := make_copy vv.

(** [sort.Strings]: sorts the segment the slice views, in place. *)
Definition sort_Strings (s : slice) : M unit :=
  fun h =>
    match s with
    | Nil => Some (tt, h)
    | Slice a o n =>
        match h !! a with
        | Some arr =>
            Some (tt, <[a := take o arr
                             ++ Rbac.sort_Strings (take n (drop o arr))
                             ++ drop (o + n) arr]> h)
        | None => None
        end
    end.

(** [strSliceEqual] only reads its arguments. *)
Definition strSliceEqual (ss xx : slice) : M bool :=
  fun h =>
    match Rbac.strSliceEqual (load h ss) (load h xx) with
    | Some b => Some (b, h)
    | None => None
    end.

(** Go's [a && b]. *)
Definition and_then (a b : M bool) : M bool :=
  do x <- a; if x then b else ret false.

Definition DeepEqual (r rule : Rule) : M bool :=
  do this <- DeepCopy r;
  do that <- DeepCopy rule;
  do thisResourceStrings <- resourcesToStrings (Resources this);
  do thisVerbStrings <- verbsToStrings (Verbs this);
  do thatResourceStrings <- resourcesToStrings (Resources that);
  do thatVerbStrings <- verbsToStrings (Verbs that);
  exec sort_Strings thisResourceStrings;
  exec sort_Strings thisVerbStrings;
  exec sort_Strings thatResourceStrings;
  exec sort_Strings thatVerbStrings;
  exec sort_Strings (ResourcePatterns this);
  exec sort_Strings (Namespaces this);
  exec sort_Strings (ResourcePatterns that);
  exec sort_Strings (Namespaces that);
  and_then (strSliceEqual thisResourceStrings thatResourceStrings)
  (and_then (strSliceEqual thisVerbStrings thatVerbStrings)
  (and_then (strSliceEqual (ResourcePatterns this) (ResourcePatterns that))
            (strSliceEqual (Namespaces this) (Namespaces that)))).

(** A variant of [DeepEqual] that skips [DeepCopy] and sorts the caller's
    slices: what the copies are there to prevent. *)
Definition DeepEqual_without_copy (r rule : Rule) : M bool :=
  do thisResourceStrings <- resourcesToStrings (Resources r);
  do thisVerbStrings <- verbsToStrings (Verbs r);
  do thatResourceStrings <- resourcesToStrings (Resources rule);
  do thatVerbStrings <- verbsToStrings (Verbs rule);
  exec sort_Strings thisResourceStrings;
  exec sort_Strings thisVerbStrings;
  exec sort_Strings thatResourceStrings;
  exec sort_Strings thatVerbStrings;
  exec sort_Strings (ResourcePatterns r);
  exec sort_Strings (Namespaces r);
  exec sort_Strings (ResourcePatterns rule);
  exec sort_Strings (Namespaces rule);
  and_then (strSliceEqual thisResourceStrings thatResourceStrings)
  (and_then (strSliceEqual thisVerbStrings thatVerbStrings)
  (and_then (strSliceEqual (ResourcePatterns r) (ResourcePatterns rule))
            (strSliceEqual (Namespaces r) (Namespaces rule)))).

(** *** Assertions about runs *)

(** The computation returns (it does not panic) and its result and final
    store satisfy [Q]. *)
Definition returns {A} (m : M A) (h : store) (Q : A -> store -> Prop)
  : Prop :=
  exists x h', m h = Some (x, h') /\ Q x h'.

Definition addr (s : slice) : option loc :=
  match s with
  | Nil => None
  | Slice a _ _ => Some a
  end.

(** [s] is nil and [l] is empty, or [s] views the whole of an array that
    holds [l] and was allocated at address [n0] or later. *)
Definition holds (n0 : nat) (h : store) (s : slice) (l : list string)
  : Prop :=
  match s with
  | Nil => l = []
  | Slice a o n =>
      (n0 <= a)%nat /\ o = 0%nat /\ n = length l /\ h !! a = Some l
  end.

(** The slices a call has created since the store was [h0], with their
    contents: the store still begins with [h0], and each created slice
    views an array of its own, allocated after [h0]. *)
Definition owns (h0 h : store) (sl : list (slice * list string)) : Prop :=
  (exists ext, h = h0 ++ ext) /\
  NoDup (omap (fun p : slice * list string => addr (fst p)) sl) /\
  Forall (fun p : slice * list string => holds (length h0) h (fst p) (snd p))
         sl.

End Mem.

(** ** Package [api]: the desktop session handlers

    The two handlers talk to collaborators that are not kvdi code at hand:
    the request (its user session and its route variables), the cluster
    client, the resolver and the response writer.  A handler is embedded as
    the tree of the calls it makes, each with a continuation for the answer
    it gets, ending in the response it writes; [run] plays such a tree
    against given answers and records the calls. *)
Module DesktopAPI.

(** What the handlers use without defining it.  [HasGrant] is a method of
    the session's user; [WriteDesktopSessions] is a grant constant the
    handlers name; [Status_Running] and [Status_PodPhase] read the two
    status fields of a desktop as values of [interface{}], into which
    [box_bool] puts a boolean. *)
Class Collaborators := {
  User : Type;
  Desktop : Type;
  error : Type;
  value : Type;
  HasGrant : User -> Grants.RoleGrant -> bool;
  WriteDesktopSessions : Grants.RoleGrant;
  Status_Running : Desktop -> value;
  Status_PodPhase : Desktop -> value;
  box_bool : bool -> value;
  DesktopShortURL : Desktop -> string
}.

(** [types.NamespacedName]. *)
Record NamespacedName := mkNamespacedName {
  Name : string;
  Namespace : string
}.

Section Handlers.
Context {collaborators : Collaborators}.

(** A request, as the handlers see it: the result of
    [GetRequestUserSession], [None] for nil, reduced to the session's user,
    and the map [mux.Vars] returns. *)
Record Request := mkRequest {
  session : option User;
  vars : gmap string string
}.

(** Indexing a Go map with a key it does not hold gives the zero value. *)
Definition index (m : gmap string string) (key : string) : string :=
  default ""%string (m !! key).

Definition getNamespacedNameFromRequest (r : Request) : NamespacedName :=
  let vars := vars r in
  mkNamespacedName (index vars "name") (index vars "namespace").

Inductive handler :=
  | client_Get (nn : NamespacedName) (k : Desktop + error -> handler)
  | client_Delete (found : Desktop) (k : option error -> handler)
  | net_LookupHost (host : string) (k : option error -> handler)
  | ReturnAPIForbidden (msg : string)
  | ReturnAPIError (err : error)
  | WriteJSON (res : gmap string value).

(** [sess == nil || !sess.User.HasGrant(grant)] *)
Definition lacks (r : Request) (grant : Grants.RoleGrant) : bool :=
  match session r with
  | None => true
  | Some user => negb (HasGrant user grant)
  end.

Definition GetDesktopSessionStatus (r : Request) : handler :=
  if lacks r Grants.ReadDesktopSessions then
    ReturnAPIForbidden "User does not have ReadDesktopSessions grant"
  else
    let nn := getNamespacedNameFromRequest r in
    client_Get nn (fun answer =>
      match answer with
      | inr err => ReturnAPIError err
      | inl found =>
          let res : gmap string value := empty in
          let res := <["running"%string := Status_Running found]> res in
          let res := <["podPhase"%string := Status_PodPhase found]> res in
          net_LookupHost (DesktopShortURL found) (fun err =>
            match err with
            | None => WriteJSON (<["resolvable"%string := box_bool true]> res)
            | Some _ =>
                WriteJSON (<["resolvable"%string := box_bool false]> res)
            end)
      end).

Definition DeleteDesktopSession (r : Request) : handler :=
  if lacks r WriteDesktopSessions then
    ReturnAPIForbidden "User does not have WriteDesktopSessions grant"
  else
    let nn := getNamespacedNameFromRequest r in
    client_Get nn (fun answer =>
      match answer with
      | inr err => ReturnAPIError err
      | inl found =>
          client_Delete found (fun err =>
            match err with
            | Some err => ReturnAPIError err
            | None =>
                WriteJSON (<["ok"%string := box_bool true]> empty)
            end)
      end).

(** The request comes with a session whose user has the grant. *)
Definition authorized (r : Request) (grant : Grants.RoleGrant) : Prop :=
  exists user : User, session r = Some user /\ HasGrant user grant = true.

(** The answers of the collaborators. *)
Record answers := mkAnswers {
  get : NamespacedName -> Desktop + error;
  delete : Desktop -> option error;
  lookupHost : string -> option error
}.

Inductive call :=
  | CallGet (nn : NamespacedName)
  | CallDelete (found : Desktop)
  | CallLookupHost (host : string).

Inductive response :=
  | Forbidden (msg : string)
  | APIError (err : error)
  | JSON (res : gmap string value).

(** The calls a handler makes, in order, and the response it writes. *)
Fixpoint run (a : answers) (h : handler) : list call * response :=
  match h with
  | client_Get nn k =>
      let (calls, resp) := run a (k (get a nn)) in (CallGet nn :: calls, resp)
  | client_Delete found k =>
      let (calls, resp) := run a (k (delete a found)) in
      (CallDelete found :: calls, resp)
  | net_LookupHost host k =>
      let (calls, resp) := run a (k (lookupHost a host)) in
      (CallLookupHost host :: calls, resp)
  | ReturnAPIForbidden msg => ([], Forbidden msg)
  | ReturnAPIError err => ([], APIError err)
  | WriteJSON res => ([], JSON res)
  end.

End Handlers.

(** Collaborators to run the handlers with: a user is a grant mask tested
    with [Grants.Has], a desktop is its name with its two status fields,
    an error is a message. *)
Inductive sample_value :=
  | Bool (b : bool)
  | Str (s : string).

Record sample_desktop := mkDesktop {
  desktop_name : string;
  running : bool;
  podPhase : string
}.

#[export] Instance sample : Collaborators := {|
  User := Grants.RoleGrant;
  Desktop := sample_desktop;
  error := string;
  value := sample_value;
  HasGrant := Grants.Has;
  WriteDesktopSessions := Z.shiftl 1 8;
  Status_Running := fun d => Bool (running d);
  Status_PodPhase := fun d => Str (podPhase d);
  box_bool := Bool;
  DesktopShortURL := desktop_name
|}.

(** Answers of a cluster that holds one desktop, ["default/web"], whose
    host does not resolve, and refuses no deletion. *)
Definition sample_answers : @answers sample :=
  mkAnswers
    (fun nn =>
       if String.eqb (Name nn) "web" && String.eqb (Namespace nn) "default"
       then inl (mkDesktop "web" true "Running")
       else inr "not found"%string)
    (fun _ => None)
    (fun _ => Some "no such host"%string).

(** A request for the desktop [name] of the namespace ["default"], from a
    session whose user has the grants of [mask]. *)
Definition sample_request (mask : Grants.RoleGrant) (name : string)
  : @Request sample :=
  mkRequest (Some mask)
    (<["name"%string := name]> (<["namespace"%string := "default"%string]> empty)).

End DesktopAPI.

(** * Properties *)

(** ** Grants *)
Section GrantsFacts.
Import Grants.

Lemma land_bit (r : Z) (i : nat) :
  Z.land r (Z.shiftl 1 (Z.of_nat i))
  = if Z.testbit r (Z.of_nat i) then Z.shiftl 1 (Z.of_nat i) else 0.
Proof.
  apply Z.bits_inj'; intros n Hn.
  rewrite Z.land_spec, Z.shiftl_spec by lia.
  destruct (Z.testbit r (Z.of_nat i)) eqn:Hbit.
  - rewrite Z.shiftl_spec by lia.
    destruct (Z.eq_dec n (Z.of_nat i)) as [->|Hne].
    + rewrite Hbit, Z.sub_diag. reflexivity.
    + replace (Z.testbit 1 (n - Z.of_nat i)) with false; [apply andb_false_r|].
      symmetry. destruct (Z_lt_le_dec n (Z.of_nat i)).
      * apply Z.testbit_neg_r; lia.
      * change 1 with (2 ^ 0). apply Z.pow2_bits_false; lia.
  - rewrite Z.bits_0.
    destruct (Z.eq_dec n (Z.of_nat i)) as [->|Hne].
    + rewrite Hbit. reflexivity.
    + replace (Z.testbit 1 (n - Z.of_nat i)) with false; [apply andb_false_r|].
      symmetry. destruct (Z_lt_le_dec n (Z.of_nat i)).
      * apply Z.testbit_neg_r; lia.
      * change 1 with (2 ^ 0). apply Z.pow2_bits_false; lia.
Qed.

Lemma shiftl_1_nonzero (i : nat) : Z.shiftl 1 (Z.of_nat i) <> 0.
Proof. rewrite Z.shiftl_1_l. apply Z.pow_nonzero; lia. Qed.

(** The test of [Names] at index [i] reads bit [i] of the mask. *)
Lemma Names_test (r : Z) (i : nat) :
  negb (Z.land r (Z.shiftl 1 (Z.of_nat i)) =? 0) = Z.testbit r (Z.of_nat i).
Proof.
  rewrite (land_bit r i). destruct (Z.testbit r (Z.of_nat i)); [|reflexivity].
  apply negb_true_iff, Z.eqb_neq, shiftl_1_nonzero.
Qed.

(** The loop of [Names] appends, in index order, the names at the indices
    whose bit is set. *)
Lemma Names_foldl (r : RoleGrant) (idx : list nat) (acc : list string) :
  foldl (Names_body r) acc idx
  = acc ++ map (fun i => grantNames !!! i)
             (filter (fun i => Z.testbit r (Z.of_nat i) = true) idx).
Proof.
  revert acc. induction idx as [|i idx IH]; intros acc; simpl.
  - symmetry. apply app_nil_r.
  - rewrite IH. unfold Names_body. rewrite Names_test.
    rewrite filter_cons.
    destruct (Z.testbit r (Z.of_nat i)) eqn:Hbit.
    + rewrite decide_True by reflexivity. simpl. rewrite <- app_assoc.
      reflexivity.
    + rewrite decide_False by discriminate. reflexivity.
Qed.

Lemma names_of_set_bits_filter (r : RoleGrant) (idx : list nat) :
  map snd (filter (fun c : RoleGrant * string => Z.land r (fst c) = fst c)
             (map (fun i => (iota_bit i, grantNames !!! i)) idx))
  = map (fun i => grantNames !!! i)
      (filter (fun i => Z.testbit r (Z.of_nat i) = true) idx).
Proof.
  induction idx as [|i idx IH]; [reflexivity|].
  cbn [map]. rewrite !filter_cons. cbn [fst].
  pose proof (land_bit r i) as Hland. fold (iota_bit i) in Hland.
  destruct (Z.testbit r (Z.of_nat i)) eqn:Hbit.
  - rewrite decide_True by exact Hland.
    rewrite decide_True by reflexivity. cbn [map snd]. f_equal. exact IH.
  - rewrite decide_False.
    2:{ rewrite Hland. intros E. symmetry in E.
        exact (shiftl_1_nonzero i E). }
    rewrite decide_False by discriminate. exact IH.
Qed.

(** C6: [r.Has(g)] is true exactly when [r & g] is not zero; a mask that
    has any named capability therefore has [All], although it need not
    contain all the bits of [All] ([ReadUsers] alone does not). *)
Theorem Has_iff_common_bit :
  (forall r g : RoleGrant, Has r g = true <-> Z.land r g <> 0) /\
  (forall (r c : RoleGrant),
      In c (map fst declared) -> Has r c = true -> Has r All = true) /\
  (Has ReadUsers All = true /\ Z.land ReadUsers All <> All).
Proof.
  assert (Hiff : forall r g : RoleGrant, Has r g = true <-> Z.land r g <> 0).
  { intros r g. unfold Has. rewrite negb_true_iff. apply Z.eqb_neq. }
  split; [exact Hiff|]. split.
  - intros r c Hin Hc. apply Hiff. apply Hiff in Hc.
    intros Hall. apply Hc.
    assert (Hsub : Z.land c All = c).
    { simpl in Hin.
      repeat (destruct Hin as [<-|Hin]; [reflexivity|]). destruct Hin. }
    rewrite <- Hsub, (Z.land_comm c All), Z.land_assoc, Hall.
    apply Z.land_0_l.
  - split; [reflexivity|discriminate].
Qed.

Lemma Has_iff_common_bit_witness :
  Has 5 All = true.
Proof.
  destruct Has_iff_common_bit as [_ [Hany _]].
  apply (Hany 5 ReadRoles).
  - simpl. right. right. left. reflexivity.
  - reflexivity.
Defined.

(** C7: [Names] returns the names of the capabilities whose bit is set, in
    declaration order (bit 0 first); it depends on the mask only, so
    [ReadUsers | WriteUsers] and [WriteUsers | ReadUsers] both give
    ["ReadUsers"; "WriteUsers"]. *)
Theorem Names_set_bits_in_order :
  (forall r : RoleGrant, Names r = names_of_set_bits r) /\
  (forall r : RoleGrant,
      Names r = map (fun i => grantNames !!! i)
                  (filter (fun i => Z.testbit r (Z.of_nat i) = true)
                     (seq 0 8))) /\
  Names (Z.lor ReadUsers WriteUsers) = ["ReadUsers"; "WriteUsers"] /\
  Names (Z.lor WriteUsers ReadUsers) = ["ReadUsers"; "WriteUsers"].
Proof.
  assert (Hbits : forall r : RoleGrant,
      Names r = map (fun i => grantNames !!! i)
                  (filter (fun i => Z.testbit r (Z.of_nat i) = true)
                     (seq 0 8))).
  { intros r. unfold Names. rewrite Names_foldl. reflexivity. }
  split; [|split; [exact Hbits|split; reflexivity]].
  intros r. rewrite Hbits. unfold names_of_set_bits.
  change declared
    with (map (fun i => (iota_bit i, grantNames !!! i)) (seq 0 8)).
  symmetry. apply names_of_set_bits_filter.
Qed.

(** C8: the eight named capabilities are the powers of two 1, 2, ..., 128,
    one bit each, bit [k] for the [k]-th declared, and [All] is their
    bitwise union, 255. *)
Theorem grant_constants :
  ReadUsers = 1 /\ WriteUsers = 2 /\ ReadRoles = 4 /\ WriteRoles = 8 /\
  ReadTemplates = 16 /\ WriteTemplates = 32 /\ LaunchTemplates = 64 /\
  ReadDesktopSessions = 128 /\
  map fst declared = map (fun k => 2 ^ Z.of_nat k) (seq 0 8) /\
  (forall (k : nat) (c : RoleGrant),
      map fst declared !! k = Some c ->
      forall j : Z, Z.testbit c j = (j =? Z.of_nat k)) /\
  All = foldr Z.lor 0 (map fst declared) /\
  All = 255.
Proof.
  repeat (split; [reflexivity|]).
  split; [|split; reflexivity].
  intros k c Hk j.
  assert (Hc : c = 2 ^ Z.of_nat k).
  { do 8 (destruct k as [|k]; [inversion Hk; reflexivity|]).
    inversion Hk. }
  subst c. destruct (Z.eqb_spec j (Z.of_nat k)) as [->|Hne].
  - apply Z.pow2_bits_true. lia.
  - destruct (Z_lt_le_dec j 0).
    + apply Z.testbit_neg_r. lia.
    + apply Z.pow2_bits_false. lia.
Qed.

Lemma grant_constants_witness :
  Z.testbit LaunchTemplates 6 = true /\ Z.testbit LaunchTemplates 7 = false.
Proof.
  destruct grant_constants as (_ & _ & _ & _ & _ & _ & _ & _ & _ & Hbit & _).
  split.
  - exact (Hbit 6%nat LaunchTemplates eq_refl 6).
  - exact (Hbit 6%nat LaunchTemplates eq_refl 7).
Defined.

End GrantsFacts.

(** ** Membership tests of a rule *)
Section RuleMembership.
Import Rbac.

(** The three loops have the same shape: the wildcard is tested first on
    each item, then the item itself. *)
Ltac range_iff items IH :=
  induction items as [|item items IH]; simpl;
  [ intuition congruence
  | repeat match goal with
      | |- context [String.eqb ?a ?b] =>
          destruct (String.eqb_spec a b); subst
      end;
    intuition (subst; try congruence) ].

Lemma HasVerb_range_iff (items : list Verb) (verb : Verb) :
  HasVerb_range items verb = true <-> In verb items \/ In VerbAll items.
Proof. range_iff items IH. Qed.

Lemma HasResourceType_range_iff (items : list Resource) (res : Resource) :
  HasResourceType_range items res = true
  <-> In res items \/ In ResourceAll items.
Proof. range_iff items IH. Qed.

Lemma HasNamespace_range_iff (items : list string) (ns : string) :
  HasNamespace_range items ns = true <-> In ns items \/ In NamespaceAll items.
Proof. range_iff items IH. Qed.

(** C2: [HasVerb], [HasResourceType] and [HasNamespace] are true exactly
    when the argument or the wildcard ["*"] is among the rule's verbs,
    resources, namespaces; the wildcard matches at any position. *)
Theorem Has_exact_or_wildcard :
  (forall (r : Rule) (v : Verb),
      HasVerb r v = true <-> In v (Verbs r) \/ In VerbAll (Verbs r)) /\
  (forall (r : Rule) (t : Resource),
      HasResourceType r t = true
      <-> In t (Resources r) \/ In ResourceAll (Resources r)) /\
  (forall (r : Rule) (ns : string),
      HasNamespace r ns = true
      <-> In ns (Namespaces r) \/ In NamespaceAll (Namespaces r)) /\
  (VerbAll = "*" /\ ResourceAll = "*" /\ NamespaceAll = "*") /\
  (forall rs ps nss (v : Verb), HasVerb (mkRule ["*"] rs ps nss) v = true) /\
  (forall pre post rs ps nss (v : Verb),
      HasVerb (mkRule (pre ++ "*" :: post) rs ps nss) v = true) /\
  (forall pre post vs ps nss (t : Resource),
      HasResourceType (mkRule vs (pre ++ "*" :: post) ps nss) t = true) /\
  (forall pre post vs rs ps (ns : string),
      HasNamespace (mkRule vs rs ps (pre ++ "*" :: post)) ns = true).
Proof.
  split; [intros; apply HasVerb_range_iff|].
  split; [intros; apply HasResourceType_range_iff|].
  split; [intros; apply HasNamespace_range_iff|].
  split; [repeat split|].
  split; [reflexivity|].
  split; [|split]; intros.
  - apply HasVerb_range_iff. right. apply in_elt.
  - apply HasResourceType_range_iff. right. apply in_elt.
  - apply HasNamespace_range_iff. right. apply in_elt.
Qed.

(** C3: a rule with no verbs has no verb, one with no resources has no
    resource type, one with no namespaces has no namespace and one with no
    patterns matches no name, the empty name included; the empty rule
    therefore has none of them. *)
Theorem empty_fields_match_nothing (regexp : RegexpPkg) (r : Rule) :
  (Verbs r = [] -> forall v : Verb, HasVerb r v = false) /\
  (Resources r = [] -> forall t : Resource, HasResourceType r t = false) /\
  (Namespaces r = [] -> forall ns : string, HasNamespace r ns = false) /\
  (ResourcePatterns r = [] ->
   forall name : string, MatchesResourceName r name = false) /\
  (IsEmpty r = true ->
   forall (v : Verb) (t : Resource) (ns name : string),
     HasVerb r v = false /\ HasResourceType r t = false /\
     HasNamespace r ns = false /\ MatchesResourceName r name = false /\
     MatchesResourceName r "" = false).
Proof.
  unfold HasVerb, HasResourceType, HasNamespace, MatchesResourceName, IsEmpty.
  destruct r as [vs rs ps nss]; simpl.
  repeat split; try (intros ->; reflexivity).
  all: destruct vs, rs, ps, nss; simpl in *; congruence.
Qed.

Lemma empty_fields_match_nothing_witness :
  HasVerb (mkRule [] [] [] []) "read" = false /\
  HasResourceType (mkRule [] [] [] []) "users" = false /\
  HasNamespace (mkRule [] [] [] []) "default" = false /\
  @MatchesResourceName RE2Fragment.engine (mkRule [] [] [] []) "foo" = false /\
  @MatchesResourceName RE2Fragment.engine (mkRule [] [] [] []) "" = false.
Proof.
  destruct (empty_fields_match_nothing RE2Fragment.engine (mkRule [] [] [] []))
    as (_ & _ & _ & _ & Hempty).
  exact (Hempty eq_refl "read" "users" "default" "foo").
Defined.

End RuleMembership.

(** ** Resource name patterns *)
Section ResourceNames.
Import Rbac.
Context {regexp : RegexpPkg}.

Lemma MatchesResourceName_range_app (pre post : list string) (name : string) :
  MatchesResourceName_range (pre ++ post) name
  = MatchesResourceName_range pre name || MatchesResourceName_range post name.
Proof.
  induction pre as [|p pre IH]; simpl; [reflexivity|].
  destruct (Compile p) as [re|]; [|exact IH].
  destruct (MatchString re name); [reflexivity|exact IH].
Qed.

Lemma MatchesResourceName_range_compilable (ps : list string) (name : string) :
  MatchesResourceName_range ps name
  = MatchesResourceName_range (compilable ps) name.
Proof.
  unfold compilable. induction ps as [|p ps IH]; [reflexivity|].
  rewrite filter_cons. simpl.
  destruct (Compile p) as [re|] eqn:Hp.
  - rewrite decide_True by eauto. simpl. rewrite Hp, IH. reflexivity.
  - rewrite decide_False by (intros [? ?]; discriminate). exact IH.
Qed.

(** A name is matched exactly when some pattern compiles to an expression
    that matches it. *)
Lemma MatchesResourceName_range_iff (ps : list string) (name : string) :
  MatchesResourceName_range ps name = true
  <-> exists p re, In p ps /\ Compile p = Some re /\ MatchString re name = true.
Proof.
  induction ps as [|p ps IH]; simpl.
  - split; [discriminate|]. intros (? & ? & [] & _).
  - destruct (Compile p) as [re|] eqn:Hp.
    + destruct (MatchString re name) eqn:Hm.
      * split; [|reflexivity]. intros _. exists p, re. auto.
      * rewrite IH. split.
        -- intros (q & re' & Hin & Hq & Hm'). exists q, re'. auto.
        -- intros (q & re' & [<-|Hin] & Hq & Hm'); [congruence|].
           exists q, re'. auto.
    + rewrite IH. split.
      * intros (q & re' & Hin & Hq & Hm'). exists q, re'. auto.
      * intros (q & re' & [<-|Hin] & Hq & Hm'); [congruence|].
        exists q, re'. auto.
Qed.

End ResourceNames.

Section InvalidPatterns.
Import Rbac.

(** C1: a pattern that does not compile is skipped, the call returns a
    boolean all the same and goes on with the remaining patterns: the rule
    matches as if the pattern were absent.  With an engine that rejects
    ["(unclosed"] and compiles ["^ok$"] to an expression matching ["ok"]
    but not ["anything-else"], the rule with these two patterns matches
    ["ok"] and does not match ["anything-else"]. *)
Theorem MatchesResourceName_skips_invalid
    (regexp : RegexpPkg) (re_ok : Regexp)
    (Hinvalid : Compile "(unclosed" = None)
    (Hvalid : Compile "^ok$" = Some re_ok)
    (Hok : MatchString re_ok "ok" = true)
    (Helse : MatchString re_ok "anything-else" = false) :
  (forall (vs : list Verb) (rs : list Resource) (nss pre post : list string)
          (p name : string),
      Compile p = None ->
      MatchesResourceName (mkRule vs rs (pre ++ p :: post) nss) name
      = MatchesResourceName (mkRule vs rs (pre ++ post) nss) name) /\
  (forall (r : Rule) (name : string),
      MatchesResourceName r name
      = MatchesResourceName
          (mkRule (Verbs r) (Resources r) (compilable (ResourcePatterns r))
                  (Namespaces r)) name) /\
  (forall (vs : list Verb) (rs : list Resource) (nss : list string),
      MatchesResourceName (mkRule vs rs ["(unclosed"; "^ok$"] nss) "ok" = true /\
      MatchesResourceName (mkRule vs rs ["(unclosed"; "^ok$"] nss)
        "anything-else" = false).
Proof.
  split; [|split].
  - intros vs rs nss pre post p name Hp. unfold MatchesResourceName. simpl.
    rewrite !MatchesResourceName_range_app. simpl. rewrite Hp. reflexivity.
  - intros r name. apply MatchesResourceName_range_compilable.
  - intros vs rs nss. unfold MatchesResourceName. simpl.
    rewrite Hinvalid, Hvalid, Hok, Helse. split; reflexivity.
Qed.

Lemma MatchesResourceName_skips_invalid_witness :
  @MatchesResourceName RE2Fragment.engine
     (mkRule ["read"] ["templates"] ["(unclosed"; "^ok$"] []) "ok" = true /\
  @MatchesResourceName RE2Fragment.engine
     (mkRule ["read"] ["templates"] ["(unclosed"; "^ok$"] [])
     "anything-else" = false.
Proof.
  destruct (MatchesResourceName_skips_invalid RE2Fragment.engine
              (RE2Fragment.Concat RE2Fragment.BeginText
                 (RE2Fragment.Concat (RE2Fragment.Literal "o")
                    (RE2Fragment.Concat (RE2Fragment.Literal "k")
                       (RE2Fragment.Concat RE2Fragment.EndText
                          RE2Fragment.EmptyMatch))))
              eq_refl eq_refl eq_refl eq_refl) as (_ & _ & Hexample).
  exact (Hexample ["read"] ["templates"] []).
Defined.

(** The fragment engine on the patterns of the rule documentation. *)
Example RE2Fragment_prefix_pattern :
  @MatchesResourceName RE2Fragment.engine
     (mkRule [] [] ["^foo-"] []) "foo-bar" = true /\
  @MatchesResourceName RE2Fragment.engine
     (mkRule [] [] ["^foo-"] []) "bar-foo" = false /\
  @Compile RE2Fragment.engine "(unclosed" = None /\
  @Compile RE2Fragment.engine "a)" = None /\
  @Compile RE2Fragment.engine "*a" = None.
Proof. repeat split. Qed.

End InvalidPatterns.

(** ** Structural equality of rules *)
Section SliceEquality.
Import Rbac.

(** The loop, entered at index [length pre] of [pre ++ rest'] with [rest]
    still to visit, decides [rest = rest']; it never indexes out of range
    when the two remainders have the same length. *)
Lemma range_index_eq_decides (rest rest' pre : list string) :
  length rest = length rest' ->
  range_index_eq rest (length pre) (pre ++ rest')
  = Some (bool_decide (rest = rest')).
Proof.
  revert rest' pre.
  induction rest as [|s rest IH]; intros [|x rest'] pre Hlen;
    simpl in Hlen; try discriminate.
  - reflexivity.
  - simpl. rewrite list_lookup_middle by reflexivity.
    destruct (String.eqb_spec x s) as [->|Hne].
    + replace (pre ++ s :: rest') with ((pre ++ [s]) ++ rest')
        by (rewrite <- app_assoc; reflexivity).
      replace (S (length pre)) with (length (pre ++ [s]))
        by (rewrite length_app; simpl; lia).
      rewrite IH by lia.
      f_equal. apply bool_decide_ext. split; intros E; congruence.
    + rewrite bool_decide_eq_false_2; [reflexivity|]. congruence.
Qed.

Lemma range_index_eq_from_0 (ss xx : list string) :
  length ss = length xx ->
  range_index_eq ss 0 xx = Some (bool_decide (ss = xx)).
Proof. intros Hlen. exact (range_index_eq_decides ss xx [] Hlen). Qed.

Lemma strSliceEqual_by_path (ss xx : list string) :
  strSliceEqual ss xx
  = match strSliceEqual_path ss xx with
    | return_both_empty => Some true
    | return_length_differs => Some false
    | range_over_ss => range_index_eq ss 0 xx
    | range_over_xx => range_index_eq xx 0 ss
    end.
Proof.
  unfold strSliceEqual, strSliceEqual_path.
  destruct ((length ss =? 0)%nat && (length xx =? 0)%nat); [reflexivity|].
  destruct (negb (length ss =? length xx)%nat); [reflexivity|].
  destruct (0 <? length ss)%nat; reflexivity.
Qed.

Lemma strSliceEqual_decides (ss xx : list string) :
  strSliceEqual ss xx = Some (bool_decide (ss = xx)).
Proof.
  unfold strSliceEqual.
  destruct ss as [|s ss], xx as [|x xx]; simpl; try reflexivity.
  destruct (Nat.eqb_spec (length ss) (length xx)) as [Hlen|Hne]; simpl.
  - apply (range_index_eq_from_0 (s :: ss) (x :: xx)). simpl. lia.
  - rewrite bool_decide_eq_false_2; [reflexivity|]. congruence.
Qed.

(** C10: [strSliceEqual] is element-wise equality of the two slices: it
    returns, without ever indexing out of range, whether they have the same
    length and equal elements at every index.  On slices of equal length
    its two loops give the same result, and no input reaches the second. *)
Theorem strSliceEqual_is_list_equality :
  (forall ss xx : list string,
      strSliceEqual ss xx = Some (bool_decide (ss = xx))) /\
  (forall ss xx : list string,
      strSliceEqual ss xx = Some true
      <-> length ss = length xx /\
          forall i : nat, (i < length ss)%nat -> ss !! i = xx !! i) /\
  (forall ss xx : list string,
      length ss = length xx ->
      range_index_eq ss 0 xx = range_index_eq xx 0 ss) /\
  (forall ss xx : list string,
      strSliceEqual ss xx
      = match strSliceEqual_path ss xx with
        | return_both_empty => Some true
        | return_length_differs => Some false
        | range_over_ss => range_index_eq ss 0 xx
        | range_over_xx => range_index_eq xx 0 ss
        end) /\
  (forall ss xx : list string, strSliceEqual_path ss xx <> range_over_xx).
Proof.
  split; [exact strSliceEqual_decides|].
  split; [|split; [|split; [exact strSliceEqual_by_path|]]].
  - intros ss xx. rewrite strSliceEqual_decides. split.
    + intros E. injection E as E. apply bool_decide_eq_true in E. subst xx.
      split; reflexivity.
    + intros [Hlen Hidx]. f_equal. apply bool_decide_eq_true.
      apply list_eq. intros i.
      destruct (Nat.lt_ge_cases i (length ss)) as [Hlt|Hge]; [auto|].
      rewrite !lookup_ge_None_2 by lia. reflexivity.
  - intros ss xx Hlen.
    rewrite !range_index_eq_from_0 by congruence.
    f_equal. apply bool_decide_ext. split; congruence.
  - intros ss xx. unfold strSliceEqual_path.
    destruct ss as [|s ss], xx as [|x xx]; simpl; try discriminate.
    destruct (length ss =? length xx)%nat; discriminate.
Qed.

Lemma strSliceEqual_is_list_equality_witness :
  strSliceEqual ["a"; "b"] ["a"; "b"] = Some true /\
  range_index_eq ["a"; "b"] 0 ["a"; "c"] = range_index_eq ["a"; "c"] 0 ["a"; "b"].
Proof.
  destruct strSliceEqual_is_list_equality as (_ & Hiff & Hsame & _).
  split.
  - apply Hiff. split; [reflexivity|].
    intros i Hi. simpl in Hi.
    destruct i as [|[|i]]; [reflexivity|reflexivity|lia].
  - apply Hsame. reflexivity.
Defined.

End SliceEquality.

Section RuleEquality.
Import Rbac.

(** [sort_Strings] meets the contract of [sort.Strings], and the contract
    has one solution. *)
Lemma sort_Strings_Sorted (a : list string) :
  Sorted String.le (sort_Strings a).
Proof. apply Sorted_merge_sort; apply _. Qed.

Lemma sort_Strings_Permutation (a : list string) :
  Permutation (sort_Strings a) a.
Proof. apply merge_sort_Permutation. Qed.

Lemma sort_Strings_unique (a b : list string) :
  Sorted String.le b -> Permutation b a -> b = sort_Strings a.
Proof.
  intros Hsorted Hperm.
  apply (Sorted_unique String.le); [exact Hsorted|apply sort_Strings_Sorted|].
  rewrite Hperm. symmetry. apply sort_Strings_Permutation.
Qed.

Lemma sort_Strings_eq_iff (a b : list string) :
  sort_Strings a = sort_Strings b <-> Permutation a b.
Proof.
  split.
  - intros E. rewrite <- (sort_Strings_Permutation a), E.
    apply sort_Strings_Permutation.
  - intros Hperm. apply sort_Strings_unique; [apply sort_Strings_Sorted|].
    rewrite sort_Strings_Permutation. exact Hperm.
Qed.

Lemma DeepEqual_decides (r s : Rule) :
  DeepEqual r s
  = Some (bool_decide (sort_Strings (Resources r) = sort_Strings (Resources s))
          && (bool_decide (sort_Strings (Verbs r) = sort_Strings (Verbs s))
          && (bool_decide (sort_Strings (ResourcePatterns r)
                           = sort_Strings (ResourcePatterns s))
          && bool_decide (sort_Strings (Namespaces r)
                          = sort_Strings (Namespaces s))))).
Proof.
  unfold DeepEqual, DeepCopy, resourcesToStrings, verbsToStrings. simpl.
  rewrite !map_id, !strSliceEqual_decides.
  repeat (destruct (bool_decide _); simpl; try reflexivity).
Qed.

(** [DeepEqual] returns [true] exactly when each field of one rule is a
    rearrangement of the same field of the other. *)
Lemma DeepEqual_true_iff (r s : Rule) :
  DeepEqual r s = Some true
  <-> Permutation (Verbs r) (Verbs s) /\
      Permutation (Resources r) (Resources s) /\
      Permutation (ResourcePatterns r) (ResourcePatterns s) /\
      Permutation (Namespaces r) (Namespaces s).
Proof.
  rewrite DeepEqual_decides. rewrite <- !sort_Strings_eq_iff. split.
  - intros E. injection E as E.
    repeat (apply andb_true_iff in E; destruct E as [?%bool_decide_eq_true E]).
    apply bool_decide_eq_true in E. auto.
  - intros (Hv & Hr & Hp & Hn). f_equal.
    rewrite !andb_true_iff, !bool_decide_eq_true. auto.
Qed.

Lemma DeepEqual_false_iff (r s : Rule) :
  DeepEqual r s = Some false <-> DeepEqual r s <> Some true.
Proof.
  rewrite DeepEqual_decides. destruct (_ && _); split; congruence.
Qed.

(** C4: [DeepEqual] compares the fields as sorted sequences of the raw
    strings, duplicates included: verbs ["read"; "read"] and ["read"] are
    unequal, patterns ["a"] and ["b"] are unequal, and so are patterns
    ["a"; "a"] and ["a"] although they match the same names with every
    engine.  Rules that compare equal have the same strings with the same
    multiplicities in each field. *)
Theorem DeepEqual_duplicate_sensitive_syntactic :
  (forall (rs : list Resource) (ps nss : list string),
      DeepEqual (mkRule ["read"; "read"] rs ps nss) (mkRule ["read"] rs ps nss)
      = Some false) /\
  (forall (vs : list Verb) (rs : list Resource) (nss : list string),
      DeepEqual (mkRule vs rs ["a"] nss) (mkRule vs rs ["b"] nss)
      = Some false) /\
  (forall (vs : list Verb) (rs : list Resource) (nss : list string),
      DeepEqual (mkRule vs rs ["a"; "a"] nss) (mkRule vs rs ["a"] nss)
      = Some false /\
      forall (regexp : RegexpPkg) (name : string),
        MatchesResourceName (mkRule vs rs ["a"; "a"] nss) name
        = MatchesResourceName (mkRule vs rs ["a"] nss) name) /\
  (forall r s : Rule,
      DeepEqual r s = Some true ->
      Permutation (Verbs r) (Verbs s) /\
      Permutation (Resources r) (Resources s) /\
      Permutation (ResourcePatterns r) (ResourcePatterns s) /\
      Permutation (Namespaces r) (Namespaces s)).
Proof.
  split; [|split; [|split]].
  - intros rs ps nss. apply DeepEqual_false_iff.
    rewrite DeepEqual_true_iff. simpl. intros [Hv _].
    apply Permutation_length in Hv. discriminate.
  - intros vs rs nss. apply DeepEqual_false_iff.
    rewrite DeepEqual_true_iff. simpl. intros (_ & _ & Hp & _).
    apply Permutation_singleton_l in Hp. discriminate.
  - intros vs rs nss. split.
    + apply DeepEqual_false_iff.
      rewrite DeepEqual_true_iff. simpl. intros (_ & _ & Hp & _).
      apply Permutation_length in Hp. discriminate.
    + intros regexp name. unfold MatchesResourceName. simpl.
      destruct (Compile "a") as [re|]; [|reflexivity].
      destruct (MatchString re name); reflexivity.
  - intros r s. apply DeepEqual_true_iff.
Qed.

Lemma DeepEqual_duplicate_sensitive_syntactic_witness :
  Permutation ["read"; "use"] ["use"; "read"] /\
  Permutation ["users"] ["users"] /\
  Permutation ["^a"; "b$"] ["b$"; "^a"] /\
  Permutation (@nil string) [].
Proof.
  destruct DeepEqual_duplicate_sensitive_syntactic as (_ & _ & _ & Hperm).
  apply (Hperm (mkRule ["read"; "use"] ["users"] ["^a"; "b$"] [])
               (mkRule ["use"; "read"] ["users"] ["b$"; "^a"] [])).
  vm_compute. reflexivity.
Defined.

(** C5: [DeepEqual] is reflexive, and two rules whose fields are
    rearrangements of each other compare equal. *)
Theorem DeepEqual_reflexive_order_insensitive :
  (forall r : Rule, DeepEqual r r = Some true) /\
  (forall r s : Rule,
      Permutation (Verbs r) (Verbs s) ->
      Permutation (Resources r) (Resources s) ->
      Permutation (ResourcePatterns r) (ResourcePatterns s) ->
      Permutation (Namespaces r) (Namespaces s) ->
      DeepEqual r s = Some true).
Proof.
  split.
  - intros r. apply DeepEqual_true_iff. repeat split; reflexivity.
  - intros r s Hv Hr Hp Hn. apply DeepEqual_true_iff. auto.
Qed.

Lemma DeepEqual_reflexive_order_insensitive_witness :
  DeepEqual (mkRule ["read"; "use"] ["users"; "roles"] ["^a"; "b$"] ["x"; "*"])
            (mkRule ["use"; "read"] ["roles"; "users"] ["b$"; "^a"] ["*"; "x"])
  = Some true.
Proof.
  destruct DeepEqual_reflexive_order_insensitive as [_ Hperm].
  apply Hperm; simpl; apply perm_swap.
Defined.

End RuleEquality.

(** ** [DeepEqual] in memory *)
Section MemFacts.
Import Mem.

Lemma returns_bind {A B} (m : M A) (k : A -> M B) (h : store)
    (Q : A -> store -> Prop) (Q' : B -> store -> Prop) :
  returns m h Q ->
  (forall x h', Q x h' -> returns (k x) h' Q') ->
  returns (bind m k) h Q'.
Proof.
  intros (x & h' & Hm & HQ) Hk.
  destruct (Hk x h' HQ) as (y & h'' & Hkx & HQ').
  exists y, h''. split; [|exact HQ'].
  unfold bind. rewrite Hm. exact Hkx.
Qed.

Lemma returns_mono {A} (m : M A) (h : store) (Q Q' : A -> store -> Prop) :
  returns m h Q -> (forall x h', Q x h' -> Q' x h') -> returns m h Q'.
Proof. intros (x & h' & Hm & HQ) Himp. exists x, h'. auto. Qed.

Lemma returns_ret {A} (x : A) (h : store) (Q : A -> store -> Prop) :
  Q x h -> returns (ret x) h Q.
Proof. intros HQ. exists x, h. split; [reflexivity|exact HQ]. Qed.

Lemma owns_init (h0 : store) : owns h0 h0 [].
Proof.
  split; [|split].
  - exists []. symmetry. apply app_nil_r.
  - constructor.
  - constructor.
Qed.

Lemma owns_frame (h0 h : store) sl (a : loc) :
  owns h0 h sl -> (a < length h0)%nat -> h !! a = h0 !! a.
Proof. intros [[ext ->] _] Ha. apply lookup_app_l. exact Ha. Qed.

Lemma owns_length (h0 h : store) sl : owns h0 h sl -> (length h0 <= length h)%nat.
Proof. intros [[ext ->] _]. rewrite length_app. lia. Qed.

(** The call still sees the caller's slices as they were. *)
Lemma load_frame (h0 h : store) sl (s : slice) :
  owns h0 h sl -> slice_ok h0 s = true -> load h s = load h0 s.
Proof.
  intros Hown Hok. destruct s as [|a o n]; [reflexivity|].
  simpl in *. destruct (h0 !! a) as [arr|] eqn:Ha; [|discriminate].
  rewrite (owns_frame h0 h sl a Hown), Ha; [reflexivity|].
  apply lookup_lt_Some in Ha. exact Ha.
Qed.

Lemma holds_load (n0 : nat) (h : store) (s : slice) (l : list string) :
  holds n0 h s l -> load h s = l.
Proof.
  destruct s as [|a o n]; simpl.
  - intros ->. reflexivity.
  - intros (_ & -> & -> & ->). simpl. apply firstn_all.
Qed.

Lemma holds_addr_lt (n0 : nat) (h : store) (s : slice) (l : list string) a :
  holds n0 h s l -> addr s = Some a -> (a < length h)%nat.
Proof.
  destruct s as [|a' o n]; simpl; [discriminate|].
  intros (_ & _ & _ & Hl) [= <-]. apply lookup_lt_Some in Hl. exact Hl.
Qed.

Lemma owns_In (h0 h : store) sl (s : slice) (l : list string) :
  owns h0 h sl -> In (s, l) sl -> holds (length h0) h s l.
Proof.
  intros (_ & _ & Hall) Hin. rewrite Forall_forall in Hall.
  apply (Hall (s, l)). apply list_elem_of_In. exact Hin.
Qed.

Lemma owns_addr_lt (h0 h : store) sl (a : loc) :
  owns h0 h sl ->
  In a (omap (fun p : slice * list string => addr (fst p)) sl) ->
  (a < length h)%nat.
Proof.
  intros Hown Hin. apply list_elem_of_In, list_elem_of_omap in Hin.
  destruct Hin as ([s l] & Hin & Haddr). simpl in Haddr.
  apply list_elem_of_In in Hin.
  exact (holds_addr_lt _ _ _ _ _ (owns_In _ _ _ _ _ Hown Hin) Haddr).
Qed.

Lemma holds_alloc (n0 : nat) (h : store) (s : slice) (l x : list string) :
  holds n0 h s l -> holds n0 (h ++ [x]) s l.
Proof.
  destruct s as [|a o n]; simpl; [auto|].
  intros (Hn0 & Ho & Hn & Hl). repeat split; try assumption.
  apply lookup_app_l_Some. exact Hl.
Qed.

(** A new array is owned along with the slices owned before. *)
Lemma owns_alloc (h0 h : store) sl (l : list string) :
  owns h0 h sl ->
  owns h0 (h ++ [l]) (sl ++ [(Slice (length h) 0 (length l), l)]).
Proof.
  intros Hown. pose proof Hown as ([ext Hext] & Hnodup & Hall).
  split; [|split].
  - exists (ext ++ [l]). rewrite Hext, <- app_assoc. reflexivity.
  - rewrite omap_app. simpl. apply NoDup_app. split; [exact Hnodup|].
    split; [|apply NoDup_singleton].
    intros a Ha Hnew. apply list_elem_of_In in Ha.
    apply (owns_addr_lt _ _ _ _ Hown) in Ha.
    apply list_elem_of_singleton in Hnew. lia.
  - apply Forall_app. split.
    + eapply Forall_impl; [exact Hall|].
      intros [s l'] Hs. simpl in *. apply holds_alloc. exact Hs.
    + constructor; [|constructor]. simpl.
      pose proof (owns_length _ _ _ Hown).
      repeat split; try lia.
      apply list_lookup_middle. reflexivity.
Qed.

Lemma owns_nil (h0 h : store) sl :
  owns h0 h sl -> owns h0 h (sl ++ [(Nil, [])]).
Proof.
  intros (Hext & Hnodup & Hall). split; [exact Hext|split].
  - rewrite omap_app. simpl. rewrite app_nil_r. exact Hnodup.
  - apply Forall_app. split; [exact Hall|].
    constructor; [reflexivity|constructor].
Qed.

Lemma make_copy_returns (h0 h : store) sl (s : slice) (l : list string) :
  owns h0 h sl -> load h s = l ->
  returns (make_copy s) h (fun s' h' => owns h0 h' (sl ++ [(s', l)])).
Proof.
  intros Hown <-. eexists _, _. split; [reflexivity|].
  apply owns_alloc. exact Hown.
Qed.

Lemma DeepCopy_field_returns (h0 h : store) sl (s : slice) :
  owns h0 h sl -> slice_ok h0 s = true ->
  returns (DeepCopy_field s) h
    (fun s' h' => owns h0 h' (sl ++ [(s', load h0 s)])).
Proof.
  intros Hown Hok. destruct s as [|a o n].
  - apply returns_ret. apply owns_nil. exact Hown.
  - apply make_copy_returns; [exact Hown|].
    exact (load_frame _ _ _ _ Hown Hok).
Qed.

Lemma DeepCopy_returns (h0 h : store) sl (r : Rule) :
  owns h0 h sl -> rule_ok h0 r = true ->
  returns (DeepCopy r) h
    (fun this h' =>
       owns h0 h'
         (sl ++ [ (Verbs this, load h0 (Verbs r));
                  (Resources this, load h0 (Resources r));
                  (ResourcePatterns this, load h0 (ResourcePatterns r));
                  (Namespaces this, load h0 (Namespaces r)) ])).
Proof.
  intros Hown Hok. unfold rule_ok in Hok.
  apply andb_true_iff in Hok as [Hok Hn].
  apply andb_true_iff in Hok as [Hok Hp].
  apply andb_true_iff in Hok as [Hv Hr].
  unfold DeepCopy.
  eapply returns_bind; [exact (DeepCopy_field_returns _ _ _ _ Hown Hv)|].
  intros verbs h1 H1.
  eapply returns_bind; [exact (DeepCopy_field_returns _ _ _ _ H1 Hr)|].
  intros resources h2 H2.
  eapply returns_bind; [exact (DeepCopy_field_returns _ _ _ _ H2 Hp)|].
  intros patterns h3 H3.
  eapply returns_bind; [exact (DeepCopy_field_returns _ _ _ _ H3 Hn)|].
  intros namespaces h4 H4.
  apply returns_ret. simpl. rewrite <- !app_assoc in H4. exact H4.
Qed.

(** A string conversion of an owned slice. *)
Lemma toStrings_returns (h0 h : store) sl (s : slice) (l : list string) :
  owns h0 h sl -> In (s, l) sl ->
  returns (make_copy s) h (fun s' h' => owns h0 h' (sl ++ [(s', l)])).
Proof.
  intros Hown Hin. apply make_copy_returns; [exact Hown|].
  exact (holds_load _ _ _ _ (owns_In _ _ _ _ _ Hown Hin)).
Qed.

Lemma holds_insert_other (n0 : nat) (h : store) (s : slice)
    (l x : list string) (a : loc) :
  holds n0 h s l -> addr s <> Some a -> holds n0 (<[a := x]> h) s l.
Proof.
  destruct s as [|a' o n]; unfold holds, addr; [auto|].
  intros (Hn0 & Ho & Hn & Hl) Hne. repeat split; try assumption.
  rewrite list_lookup_insert_ne; [exact Hl|]. congruence.
Qed.

(** Sorting an owned slice rewrites its own array and nothing else. *)
Lemma sort_Strings_returns (h0 h : store) pre post (s : slice)
    (l : list string) :
  owns h0 h (pre ++ (s, l) :: post) ->
  returns (sort_Strings s) h
    (fun _ h' => owns h0 h' (pre ++ (s, Rbac.sort_Strings l) :: post)).
Proof.
  intros Hown. pose proof Hown as ([ext Hext] & Hnodup & Hall).
  pose proof (owns_In _ _ _ s l Hown (in_elt _ _ _)) as Hs.
  destruct s as [|a o n].
  - simpl in Hs. subst l. exists tt, h. split; [reflexivity|exact Hown].
  - destruct Hs as (Hn0 & -> & -> & Hl).
    exists tt, (<[a := Rbac.sort_Strings l]> h). split.
    { unfold sort_Strings. rewrite Hl. simpl.
      rewrite firstn_all, drop_all, app_nil_r. reflexivity. }
    rewrite omap_app in Hnodup. simpl in Hnodup.
    apply NoDup_app in Hnodup as (Hpre & Hsep & Hpost).
    apply NoDup_cons in Hpost as [Hnotin Hpost].
    apply Forall_app in Hall as [Hallpre Hallpost].
    apply Forall_cons in Hallpost as [_ Hallpost].
    split; [|split].
    + exists (<[(a - length h0)%nat := Rbac.sort_Strings l]> ext). rewrite Hext.
      apply insert_app_r_alt. exact Hn0.
    + rewrite omap_app. simpl. apply NoDup_app.
      split; [exact Hpre|]. split; [exact Hsep|].
      apply NoDup_cons. split; assumption.
    + apply Forall_app. split; [|apply Forall_cons; split].
      * rewrite Forall_forall in Hallpre. apply Forall_forall.
        intros [s' l'] Hin. apply holds_insert_other; [exact (Hallpre _ Hin)|].
        simpl. intros Haddr. apply (Hsep a).
        -- apply list_elem_of_omap. exists (s', l'). split; assumption.
        -- apply list_elem_of_In. left. reflexivity.
      * simpl. repeat split; try assumption.
        -- symmetry. apply Permutation_length, sort_Strings_Permutation.
        -- apply list_lookup_insert_eq. apply lookup_lt_Some in Hl. exact Hl.
      * rewrite Forall_forall in Hallpost. apply Forall_forall.
        intros [s' l'] Hin. apply holds_insert_other; [exact (Hallpost _ Hin)|].
        simpl. intros Haddr. apply Hnotin.
        apply list_elem_of_omap. exists (s', l'). split; assumption.
Qed.

Lemma strSliceEqual_returns (h0 h : store) sl (s1 s2 : slice)
    (l1 l2 : list string) :
  owns h0 h sl -> In (s1, l1) sl -> In (s2, l2) sl ->
  returns (strSliceEqual s1 s2) h
    (fun b h' => h' = h /\ b = bool_decide (l1 = l2)).
Proof.
  intros Hown H1 H2. unfold returns, strSliceEqual.
  rewrite (holds_load _ _ _ _ (owns_In _ _ _ _ _ Hown H1)).
  rewrite (holds_load _ _ _ _ (owns_In _ _ _ _ _ Hown H2)).
  rewrite strSliceEqual_decides. eexists _, _. split; [reflexivity|].
  split; reflexivity.
Qed.

(** The run of [DeepEqual] from a store [h0] in which both rules are valid:
    it returns, the store it leaves begins with [h0], and the result is
    that of [DeepEqual] on the values of the two rules. *)
Lemma DeepEqual_returns (h0 : store) (r rule : Rule) :
  rule_ok h0 r = true -> rule_ok h0 rule = true ->
  returns (DeepEqual r rule) h0
    (fun b h' =>
       (exists ext, h' = h0 ++ ext) /\
       Rbac.DeepEqual (loadRule h0 r) (loadRule h0 rule) = Some b).
Proof.
  intros Hr Hrule. unfold DeepEqual.
  eapply returns_bind;
    [exact (DeepCopy_returns _ _ _ _ (owns_init h0) Hr)|].
  intros this h1 H1. cbn [app] in H1.
  eapply returns_bind; [exact (DeepCopy_returns _ _ _ _ H1 Hrule)|].
  intros that h2 H2. cbn [app] in H2.
  eapply returns_bind.
  { unfold resourcesToStrings. eapply (toStrings_returns _ _ _ _ _ H2).
    do 1 right. left. reflexivity. }
  intros thisResourceStrings h3 H3. cbn [app] in H3.
  eapply returns_bind.
  { unfold verbsToStrings. eapply (toStrings_returns _ _ _ _ _ H3).
    left. reflexivity. }
  intros thisVerbStrings h4 H4. cbn [app] in H4.
  eapply returns_bind.
  { unfold resourcesToStrings. eapply (toStrings_returns _ _ _ _ _ H4).
    do 5 right. left. reflexivity. }
  intros thatResourceStrings h5 H5. cbn [app] in H5.
  eapply returns_bind.
  { unfold verbsToStrings. eapply (toStrings_returns _ _ _ _ _ H5).
    do 4 right. left. reflexivity. }
  intros thatVerbStrings h6 H6. cbn [app] in H6.
  eapply returns_bind;
    [exact (sort_Strings_returns _ _ [_;_;_;_;_;_;_;_] _ _ _ H6)|].
  intros [] h7 H7. cbn [app] in H7.
  eapply returns_bind;
    [exact (sort_Strings_returns _ _ [_;_;_;_;_;_;_;_;_] _ _ _ H7)|].
  intros [] h8 H8. cbn [app] in H8.
  eapply returns_bind;
    [exact (sort_Strings_returns _ _ [_;_;_;_;_;_;_;_;_;_] _ _ _ H8)|].
  intros [] h9 H9. cbn [app] in H9.
  eapply returns_bind;
    [exact (sort_Strings_returns _ _ [_;_;_;_;_;_;_;_;_;_;_] _ _ _ H9)|].
  intros [] h10 H10. cbn [app] in H10.
  eapply returns_bind;
    [exact (sort_Strings_returns _ _ [_;_] _ _ _ H10)|].
  intros [] h11 H11. cbn [app] in H11.
  eapply returns_bind;
    [exact (sort_Strings_returns _ _ [_;_;_] _ _ _ H11)|].
  intros [] h12 H12. cbn [app] in H12.
  eapply returns_bind;
    [exact (sort_Strings_returns _ _ [_;_;_;_;_;_] _ _ _ H12)|].
  intros [] h13 H13. cbn [app] in H13.
  eapply returns_bind;
    [exact (sort_Strings_returns _ _ [_;_;_;_;_;_;_] _ _ _ H13)|].
  intros [] h14 H14. cbn [app] in H14.
  pose proof H14 as (Hext & _).
  rewrite DeepEqual_decides. cbn [loadRule Rbac.Verbs Rbac.Resources
                                   Rbac.ResourcePatterns Rbac.Namespaces].
  unfold and_then.
  eapply returns_bind.
  { eapply (strSliceEqual_returns _ _ _ _ _ _ _ H14).
    - do 8 right. left. reflexivity.
    - do 10 right. left. reflexivity. }
  intros b1 ? [-> ->]. destruct (bool_decide _);
    [|apply returns_ret; split; [exact Hext|reflexivity]].
  eapply returns_bind.
  { eapply (strSliceEqual_returns _ _ _ _ _ _ _ H14).
    - do 9 right. left. reflexivity.
    - do 11 right. left. reflexivity. }
  intros b2 ? [-> ->]. destruct (bool_decide _);
    [|apply returns_ret; split; [exact Hext|reflexivity]].
  eapply returns_bind.
  { eapply (strSliceEqual_returns _ _ _ _ _ _ _ H14).
    - do 2 right. left. reflexivity.
    - do 6 right. left. reflexivity. }
  intros b3 ? [-> ->]. destruct (bool_decide _);
    [|apply returns_ret; split; [exact Hext|reflexivity]].
  eapply returns_mono.
  { eapply (strSliceEqual_returns _ _ _ _ _ _ _ H14).
    - do 3 right. left. reflexivity.
    - do 7 right. left. reflexivity. }
  intros b4 ? [-> ->]. split; [exact Hext|reflexivity].
Qed.

(** C9: a call of [DeepEqual] on two rules that are valid in the store
    returns, leaves every array that existed before the call as it was,
    and so leaves the four fields of both rules unchanged: what it sorts
    are arrays it allocated itself.  Its result is that of [DeepEqual] on
    the values of the rules. *)
Theorem DeepEqual_leaves_rules_unchanged (h : store) (r rule : Rule) :
  rule_ok h r = true -> rule_ok h rule = true ->
  exists (b : bool) (h' : store),
    DeepEqual r rule h = Some (b, h') /\
    (forall a : loc, (a < length h)%nat -> h' !! a = h !! a) /\
    loadRule h' r = loadRule h r /\
    loadRule h' rule = loadRule h rule /\
    Rbac.DeepEqual (loadRule h r) (loadRule h rule) = Some b.
Proof.
  intros Hr Hrule.
  destruct (DeepEqual_returns h r rule Hr Hrule)
    as (b & h' & Hrun & [ext ->] & Hres).
  exists b, (h ++ ext). split; [exact Hrun|].
  assert (Hown : owns h (h ++ ext) []).
  { split; [eauto|split; constructor]. }
  split; [intros a Ha; exact (owns_frame _ _ _ _ Hown Ha)|].
  assert (Hload : forall q, rule_ok h q = true ->
                            loadRule (h ++ ext) q = loadRule h q).
  { intros q Hq. unfold rule_ok in Hq.
    apply andb_true_iff in Hq as [Hq Hn].
    apply andb_true_iff in Hq as [Hq Hp].
    apply andb_true_iff in Hq as [Hv Hrs].
    unfold loadRule.
    rewrite !(load_frame h (h ++ ext) [] _ Hown) by assumption.
    reflexivity. }
  split; [exact (Hload r Hr)|]. split; [exact (Hload rule Hrule)|exact Hres].
Qed.

Lemma DeepEqual_leaves_rules_unchanged_witness :
  exists (b : bool) (h' : store),
    DeepEqual (mkRule (Slice 0 0 2) (Slice 1 0 1) (Slice 0 1 2) Nil)
              (mkRule (Slice 2 0 2) (Slice 1 0 1) (Slice 2 1 2) (Slice 1 1 0))
              [["use"; "read"; "create"]; ["users"]; ["read"; "use"; "read"]]
    = Some (b, h') /\
    h' !! 0%nat = Some ["use"; "read"; "create"] /\
    h' !! 2%nat = Some ["read"; "use"; "read"] /\
    loadRule h' (mkRule (Slice 0 0 2) (Slice 1 0 1) (Slice 0 1 2) Nil)
    = Rbac.mkRule ["use"; "read"] ["users"] ["read"; "create"] [].
Proof.
  destruct (DeepEqual_leaves_rules_unchanged
              [["use"; "read"; "create"]; ["users"]; ["read"; "use"; "read"]]
              (mkRule (Slice 0 0 2) (Slice 1 0 1) (Slice 0 1 2) Nil)
              (mkRule (Slice 2 0 2) (Slice 1 0 1) (Slice 2 1 2) (Slice 1 1 0))
              eq_refl eq_refl) as (b & h' & Hrun & Hframe & Hr & _).
  exists b, h'. split; [exact Hrun|].
  split; [apply Hframe; simpl; lia|].
  split; [apply Hframe; simpl; lia|exact Hr].
Defined.

(** Without the copies the caller's patterns are sorted in place: the
    store model does tell the two apart. *)
Lemma DeepEqual_without_copy_writes :
  let h := [["b"; "a"]] in
  let r := mkRule Nil Nil (Slice 0 0 2) Nil in
  option_map (fun bh => loadRule (snd bh) r) (DeepEqual_without_copy r r h)
  = Some (Rbac.mkRule [] [] ["a"; "b"] []) /\
  loadRule h r = Rbac.mkRule [] [] ["b"; "a"] [] /\
  option_map (fun bh => loadRule (snd bh) r) (DeepEqual r r h)
  = Some (Rbac.mkRule [] [] ["b"; "a"] []).
Proof. vm_compute. repeat split. Qed.

End MemFacts.

(** * Further properties *)

(** ** Grants: aggregation and the name table *)
Section GrantsAggregation.
Import Grants.

Lemma Has_named_bit (r : RoleGrant) (i : nat) :
  Has r (iota_bit i) = Z.testbit r (Z.of_nat i).
Proof. unfold Has, iota_bit. apply Names_test. Qed.

Lemma declared_bits :
  declared = map (fun i => (iota_bit i, grantNames !!! i)) (seq 0 8).
Proof. reflexivity. Qed.

Lemma In_declared_inv (c : RoleGrant) (n : string) :
  In (c, n) declared ->
  exists i : nat, (i < 8)%nat /\ c = iota_bit i /\ n = grantNames !!! i.
Proof.
  rewrite declared_bits. intros Hin. apply in_map_iff in Hin.
  destruct Hin as (i & [= <- <-] & Hi). apply in_seq in Hi.
  exists i. repeat split. lia.
Qed.

Lemma Names_bits (r : RoleGrant) :
  Names r = map (fun i => grantNames !!! i)
              (filter (fun i => Z.testbit r (Z.of_nat i) = true) (seq 0 8)).
Proof. unfold Names. rewrite Names_foldl. reflexivity. Qed.

(** The names in the table are pairwise different. *)
Lemma grantNames_index_inj (i j : nat) :
  (i < 8)%nat -> (j < 8)%nat ->
  grantNames !!! i = (grantNames !!! j : string) -> i = j.
Proof.
  intros Hi Hj.
  do 8 (destruct i as [|i]; [
    do 8 (destruct j as [|j]; [first [reflexivity | discriminate]|]); lia |]).
  lia.
Qed.

Lemma In_Names_bit (r : RoleGrant) (i : nat) :
  (i < 8)%nat ->
  In (grantNames !!! i) (Names r) <-> Z.testbit r (Z.of_nat i) = true.
Proof.
  intros Hi. rewrite Names_bits, in_map_iff. split.
  - intros (j & Hname & Hj).
    apply list_elem_of_In, list_elem_of_filter in Hj as [Hbit Hj].
    apply list_elem_of_In, in_seq in Hj.
    rewrite (grantNames_index_inj i j) by (try lia; congruence). exact Hbit.
  - intros Hbit. exists i. split; [reflexivity|].
    apply list_elem_of_In, list_elem_of_filter. split; [exact Hbit|].
    apply list_elem_of_In, in_seq. lia.
Qed.

Lemma lor_nonzero (x y : Z) :
  negb (Z.lor x y =? 0) = negb (x =? 0) || negb (y =? 0).
Proof.
  rewrite <- negb_andb. f_equal. apply eq_true_iff_eq.
  rewrite andb_true_iff, !Z.eqb_eq. apply Z.lor_eq_0_iff.
Qed.

Lemma Has_lor_l (a b g : RoleGrant) :
  Has (Z.lor a b) g = Has a g || Has b g.
Proof. unfold Has. rewrite Z.land_lor_distr_l. apply lor_nonzero. Qed.

Lemma In_Names_iff_Has (r : RoleGrant) (n : string) :
  In n (Names r)
  <-> exists c : RoleGrant, In (c, n) declared /\ Has r c = true.
Proof.
  split.
  - rewrite Names_bits, in_map_iff. intros (i & <- & Hi).
    apply list_elem_of_In, list_elem_of_filter in Hi as [Hbit Hi].
    apply list_elem_of_In in Hi.
    exists (iota_bit i). split.
    + rewrite declared_bits. apply in_map_iff. exists i. split; auto.
    + rewrite Has_named_bit. exact Hbit.
  - intros (c & Hin & Hhas).
    apply In_declared_inv in Hin as (i & Hi & -> & ->).
    apply In_Names_bit; [exact Hi|]. rewrite <- Has_named_bit. exact Hhas.
Qed.

Lemma sublist_map {A B} (f : A -> B) (l1 l2 : list A) :
  sublist l1 l2 -> sublist (map f l1) (map f l2).
Proof. induction 1; simpl; constructor; assumption. Qed.

(** The bits of [All] are the bits 0 to 7. *)
Lemma All_ones : All = Z.ones 8.
Proof. reflexivity. Qed.

Lemma testbit_land_All (r : RoleGrant) (n : Z) :
  Z.testbit (Z.land r All) n = Z.testbit r n && (0 <=? n) && (n <? 8).
Proof.
  rewrite Z.land_spec, All_ones.
  destruct (Z.leb_spec 0 n) as [Hn|Hn].
  - destruct (Z.ltb_spec n 8) as [Hlt|Hge].
    + rewrite Z.ones_spec_low by lia. rewrite !andb_true_r. reflexivity.
    + rewrite Z.ones_spec_high by lia. rewrite !andb_false_r. reflexivity.
  - rewrite (Z.testbit_neg_r (Z.ones 8)) by lia.
    rewrite andb_false_r. reflexivity.
Qed.

Lemma filter_bits_ext (r r' : Z) (idx : list nat) :
  (forall i, In i idx -> Z.testbit r (Z.of_nat i) = Z.testbit r' (Z.of_nat i)) ->
  filter (fun i => Z.testbit r (Z.of_nat i) = true) idx
  = filter (fun i => Z.testbit r' (Z.of_nat i) = true) idx.
Proof.
  induction idx as [|i idx IH]; intros Hbits; [reflexivity|].
  rewrite !filter_cons, (Hbits i) by (left; reflexivity).
  rewrite IH by (intros j Hj; apply Hbits; right; exact Hj).
  reflexivity.
Qed.

(** Two masks have the same names exactly when they have the same bits
    0 to 7. *)
Lemma Names_eq_iff_bits (r r' : RoleGrant) :
  Names r = Names r'
  <-> forall i : nat, (i < 8)%nat ->
        Z.testbit r (Z.of_nat i) = Z.testbit r' (Z.of_nat i).
Proof.
  split.
  - intros E i Hi. apply eq_true_iff_eq.
    rewrite <- !(In_Names_bit _ i Hi), E. reflexivity.
  - intros Hbits. rewrite !Names_bits. f_equal.
    apply filter_bits_ext. intros i Hi.
    apply in_seq in Hi. apply Hbits. lia.
Qed.

Lemma land_All_eq_iff_bits (r r' : RoleGrant) :
  Z.land r All = Z.land r' All
  <-> forall i : nat, (i < 8)%nat ->
        Z.testbit r (Z.of_nat i) = Z.testbit r' (Z.of_nat i).
Proof.
  split.
  - intros E i Hi.
    assert (Hb := f_equal (fun z => Z.testbit z (Z.of_nat i)) E). simpl in Hb.
    rewrite !testbit_land_All in Hb.
    replace (0 <=? Z.of_nat i) with true in Hb by (symmetry; apply Z.leb_le; lia).
    replace (Z.of_nat i <? 8) with true in Hb by (symmetry; apply Z.ltb_lt; lia).
    rewrite !andb_true_r in Hb. exact Hb.
  - intros Hbits. apply Z.bits_inj'. intros n Hn.
    rewrite !testbit_land_All.
    destruct (Z.ltb_spec n 8) as [Hlt|Hge];
      [|rewrite !andb_false_r; reflexivity].
    specialize (Hbits (Z.to_nat n)). rewrite Z2Nat.id in Hbits by lia.
    rewrite Hbits by lia. reflexivity.
Qed.
(** X1: a union of masks has a grant exactly when one of the masks has
    it, and a mask has a union of grants exactly when it has one of them:
    aggregating masks with [|] never takes a grant away. *)
Theorem Has_union :
  (forall a b g : RoleGrant, Has (Z.lor a b) g = Has a g || Has b g) /\
  (forall r g1 g2 : RoleGrant, Has r (Z.lor g1 g2) = Has r g1 || Has r g2) /\
  (forall a b g : RoleGrant, Has a g = true -> Has (Z.lor a b) g = true).
Proof.
  split; [exact Has_lor_l|]. split.
  - intros r g1 g2. unfold Has. rewrite Z.land_lor_distr_r. apply lor_nonzero.
  - intros a b g Ha. rewrite Has_lor_l, Ha. reflexivity.
Qed.

Lemma Has_union_witness :
  Has (Z.lor ReadUsers WriteRoles) ReadUsers = true.
Proof.
  destruct Has_union as (_ & _ & Hmono).
  apply Hmono. reflexivity.
Defined.

(** X2: for each of the eight named capabilities [Has] is exact: it is
    true exactly when [r & c = c]; [Has] does not depend on the order of
    its operands, and with the zero mask on either side it is false. *)
Theorem Has_named_exact :
  (forall (r c : RoleGrant),
      In c (map fst declared) -> (Has r c = true <-> Z.land r c = c)) /\
  (forall r g : RoleGrant, Has r g = Has g r) /\
  (forall r : RoleGrant, Has r 0 = false /\ Has 0 r = false).
Proof.
  split; [|split].
  - intros r c Hin. apply in_map_iff in Hin as ([c' n] & <- & Hin).
    apply In_declared_inv in Hin as (i & _ & -> & _). simpl.
    rewrite Has_named_bit. unfold iota_bit. rewrite (land_bit r i).
    destruct (Z.testbit r (Z.of_nat i)); split; try reflexivity;
      try discriminate.
    intros E. symmetry in E. destruct (shiftl_1_nonzero i E).
  - intros r g. unfold Has. rewrite Z.land_comm. reflexivity.
  - intros r. unfold Has. rewrite Z.land_0_r, Z.land_0_l. split; reflexivity.
Qed.

Lemma Has_named_exact_witness :
  Has 6 WriteUsers = true <-> Z.land 6 WriteUsers = WriteUsers.
Proof.
  destruct Has_named_exact as (Hexact & _).
  apply Hexact. simpl. right. left. reflexivity.
Defined.

(** X3: whatever the mask, [Names] returns a subsequence of the name
    table: at most eight names, none of them twice, in table order. *)
Theorem Names_sublist_of_table (r : RoleGrant) :
  sublist (Names r) grantNames /\
  NoDup (Names r) /\
  (length (Names r) <= 8)%nat.
Proof.
  assert (Hsub : sublist (Names r) grantNames).
  { rewrite Names_bits.
    change grantNames with (map (fun i => grantNames !!! i) (seq 0 8)) at 2.
    apply sublist_map, sublist_filter. }
  split; [exact Hsub|]. split.
  - eapply sublist_NoDup; [|exact Hsub].
    apply (bool_decide_unpack _). vm_compute. exact I.
  - apply sublist_length in Hsub. exact Hsub.
Qed.

(** X4: a name is returned by [Names] exactly when it is the name of a
    declared capability that the mask [Has]. *)
Theorem Names_iff_Has (r : RoleGrant) (n : string) :
  In n (Names r)
  <-> exists c : RoleGrant, In (c, n) declared /\ Has r c = true.
Proof. apply In_Names_iff_Has. Qed.

(** X5: the names of a union of masks are the names of either mask. *)
Theorem Names_union (a b : RoleGrant) (n : string) :
  In n (Names (Z.lor a b)) <-> In n (Names a) \/ In n (Names b).
Proof.
  rewrite !In_Names_iff_Has. split.
  - intros (c & Hin & Hhas). rewrite Has_lor_l in Hhas.
    apply orb_true_iff in Hhas as [Ha|Hb]; [left|right]; exists c; auto.
  - intros [(c & Hin & Hhas)|(c & Hin & Hhas)]; exists c;
      (split; [exact Hin|]); rewrite Has_lor_l, Hhas; auto using orb_true_r.
Qed.

(** X6: [Names] reads the bits 0 to 7 of the mask and nothing else: two
    masks have the same names exactly when they agree on the bits of
    [All], and the bits above do not matter. *)
Theorem Names_determined_by_named_bits :
  (forall r r' : RoleGrant,
      Names r = Names r' <-> Z.land r All = Z.land r' All) /\
  (forall r : RoleGrant, Names r = Names (Z.land r All)) /\
  (forall r hi : RoleGrant, Names (Z.lor r (Z.shiftl hi 8)) = Names r).
Proof.
  assert (Hiff : forall r r' : RoleGrant,
             Names r = Names r' <-> Z.land r All = Z.land r' All).
  { intros r r'. rewrite Names_eq_iff_bits, land_All_eq_iff_bits.
    reflexivity. }
  split; [exact Hiff|]. split.
  - intros r. apply Hiff. rewrite <- Z.land_assoc, Z.land_diag. reflexivity.
  - intros r hi. apply Names_eq_iff_bits. intros i Hi.
    rewrite Z.lor_spec, Z.shiftl_spec by lia.
    rewrite (Z.testbit_neg_r hi) by lia. apply orb_false_r.
Qed.

(** X7: [Names] is empty exactly when the mask has none of the named
    capabilities, and it is the whole table exactly when the mask has
    them all. *)
Theorem Names_empty_and_full (r : RoleGrant) :
  (Names r = [] <-> Has r All = false) /\
  (Names r = grantNames <-> Z.land r All = All).
Proof.
  split.
  - change [] with (Names 0).
    rewrite Names_eq_iff_bits, <- land_All_eq_iff_bits.
    unfold Has. rewrite negb_false_iff, Z.eqb_eq. reflexivity.
  - change grantNames with (Names All).
    rewrite Names_eq_iff_bits, <- land_All_eq_iff_bits.
    rewrite Z.land_diag. reflexivity.
Qed.

End GrantsAggregation.

(** ** Rules: emptiness, equality and decisions *)
Section RuleDecisions.
Import Rbac.

Lemma HasVerb_range_app (a b : list Verb) (v : Verb) :
  HasVerb_range (a ++ b) v = HasVerb_range a v || HasVerb_range b v.
Proof.
  induction a as [|x a IH]; simpl; [reflexivity|].
  destruct (String.eqb x VerbAll); [reflexivity|].
  destruct (String.eqb x v); [reflexivity|exact IH].
Qed.

Lemma HasResourceType_range_app (a b : list Resource) (t : Resource) :
  HasResourceType_range (a ++ b) t
  = HasResourceType_range a t || HasResourceType_range b t.
Proof.
  induction a as [|x a IH]; simpl; [reflexivity|].
  destruct (String.eqb x ResourceAll); [reflexivity|].
  destruct (String.eqb x t); [reflexivity|exact IH].
Qed.

Lemma HasNamespace_range_app (a b : list string) (ns : string) :
  HasNamespace_range (a ++ b) ns
  = HasNamespace_range a ns || HasNamespace_range b ns.
Proof.
  induction a as [|x a IH]; simpl; [reflexivity|].
  destruct (String.eqb x NamespaceAll); [reflexivity|].
  destruct (String.eqb x ns); [reflexivity|exact IH].
Qed.

Lemma Permutation_nil_iff {A} (l : list A) : Permutation l [] <-> l = [].
Proof.
  split; [|intros ->; reflexivity].
  intros Hp. symmetry in Hp. apply Permutation_nil in Hp. exact Hp.
Qed.

Lemma IsEmpty_true_iff (r : Rule) :
  IsEmpty r = true <-> r = mkRule [] [] [] [].
Proof.
  destruct r as [vs rs ps nss]. unfold IsEmpty. simpl. split.
  - destruct vs, rs, ps, nss; simpl; try discriminate. reflexivity.
  - intros [= -> -> -> ->]. reflexivity.
Qed.

(** X8: [IsEmpty] is true exactly for the rule with four empty fields,
    and that is the only rule that [DeepEqual]s it. *)
Theorem IsEmpty_iff_equal_to_empty_rule (r : Rule) :
  (IsEmpty r = true <-> r = mkRule [] [] [] []) /\
  (IsEmpty r = true <-> DeepEqual r (mkRule [] [] [] []) = Some true) /\
  (IsEmpty r = true <-> DeepEqual (mkRule [] [] [] []) r = Some true).
Proof.
  split; [apply IsEmpty_true_iff|].
  rewrite IsEmpty_true_iff, !DeepEqual_true_iff.
  destruct r as [vs rs ps nss]. simpl. split.
  - rewrite !Permutation_nil_iff. split.
    + intros [= -> -> -> ->]. auto.
    + intros (-> & -> & -> & ->). reflexivity.
  - split.
    + intros [= -> -> -> ->]. repeat split; reflexivity.
    + intros (Hv & Hr & Hp & Hn).
      apply Permutation_nil in Hv, Hr, Hp, Hn. congruence.
Qed.

(** X9: [DeepEqual] never panics and is an equivalence: besides being
    reflexive it gives the same answer with its operands exchanged, and
    it is transitive. *)
Theorem DeepEqual_symmetric_transitive :
  (forall r s : Rule, exists b : bool, DeepEqual r s = Some b) /\
  (forall r s : Rule, DeepEqual r s = DeepEqual s r) /\
  (forall r s t : Rule,
      DeepEqual r s = Some true -> DeepEqual s t = Some true ->
      DeepEqual r t = Some true).
Proof.
  split; [|split].
  - intros r s. rewrite DeepEqual_decides. eauto.
  - intros r s. rewrite !DeepEqual_decides. f_equal.
    repeat (f_equal; [apply bool_decide_ext; split; congruence|]).
    apply bool_decide_ext; split; congruence.
  - intros r s t. rewrite !DeepEqual_true_iff.
    intros (Hv & Hr & Hp & Hn) (Hv' & Hr' & Hp' & Hn').
    repeat split; etransitivity; eassumption.
Qed.

Lemma DeepEqual_symmetric_transitive_witness :
  DeepEqual (mkRule ["read"; "use"] ["users"] [] ["*"])
            (mkRule ["use"; "read"] ["users"] [] ["*"; "*"]) = Some false /\
  DeepEqual (mkRule ["a"; "b"; "c"] [] ["x"; "y"] [])
            (mkRule ["c"; "a"; "b"] [] ["y"; "x"] []) = Some true.
Proof.
  destruct DeepEqual_symmetric_transitive as (_ & _ & Htrans).
  split; [reflexivity|].
  apply (Htrans _ (mkRule ["b"; "a"; "c"] [] ["x"; "y"] []));
    vm_compute; reflexivity.
Defined.

Section Decisions.
Context {regexp : RegexpPkg}.

Lemma MatchesResourceName_range_Permutation (ps qs : list string)
    (name : string) :
  Permutation ps qs ->
  MatchesResourceName_range ps name = MatchesResourceName_range qs name.
Proof.
  intros Hp. apply eq_true_iff_eq.
  rewrite !MatchesResourceName_range_iff.
  split; intros (p & re & Hin & Hc & Hm); exists p, re;
    (split; [|auto]).
  - eapply Permutation_in; eassumption.
  - eapply Permutation_in; [symmetry|]; eassumption.
Qed.

End Decisions.

(** X10: rules that [DeepEqual] each other take the same decisions: they
    have the same verbs, resource types and namespaces, match the same
    resource names with every regexp engine, and are both empty or both
    not. *)
Theorem DeepEqual_same_decisions (regexp : RegexpPkg) (r s : Rule) :
  DeepEqual r s = Some true ->
  (forall v : Verb, HasVerb r v = HasVerb s v) /\
  (forall t : Resource, HasResourceType r t = HasResourceType s t) /\
  (forall ns : string, HasNamespace r ns = HasNamespace s ns) /\
  (forall name : string,
      MatchesResourceName r name = MatchesResourceName s name) /\
  IsEmpty r = IsEmpty s.
Proof.
  rewrite DeepEqual_true_iff. intros (Hv & Hr & Hp & Hn).
  split; [|split; [|split; [|split]]].
  - intros v. apply eq_true_iff_eq. unfold HasVerb.
    rewrite !HasVerb_range_iff.
    split; (intros [H|H]; [left|right]);
      (eapply Permutation_in; [|exact H]); auto; symmetry; auto.
  - intros t. apply eq_true_iff_eq. unfold HasResourceType.
    rewrite !HasResourceType_range_iff.
    split; (intros [H|H]; [left|right]);
      (eapply Permutation_in; [|exact H]); auto; symmetry; auto.
  - intros ns. apply eq_true_iff_eq. unfold HasNamespace.
    rewrite !HasNamespace_range_iff.
    split; (intros [H|H]; [left|right]);
      (eapply Permutation_in; [|exact H]); auto; symmetry; auto.
  - intros name. apply MatchesResourceName_range_Permutation. exact Hp.
  - unfold IsEmpty.
    rewrite (Permutation_length Hv), (Permutation_length Hr),
            (Permutation_length Hp), (Permutation_length Hn).
    reflexivity.
Qed.

Lemma DeepEqual_same_decisions_witness :
  HasVerb (mkRule ["read"; "use"] ["templates"] ["^a"; "(bad"] ["x"]) "use"
  = HasVerb (mkRule ["use"; "read"] ["templates"] ["(bad"; "^a"] ["x"]) "use"
  /\
  @MatchesResourceName RE2Fragment.engine
    (mkRule ["read"; "use"] ["templates"] ["^a"; "(bad"] ["x"]) "abc"
  = @MatchesResourceName RE2Fragment.engine
      (mkRule ["use"; "read"] ["templates"] ["(bad"; "^a"] ["x"]) "abc".
Proof.
  destruct (DeepEqual_same_decisions RE2Fragment.engine
              (mkRule ["read"; "use"] ["templates"] ["^a"; "(bad"] ["x"])
              (mkRule ["use"; "read"] ["templates"] ["(bad"; "^a"] ["x"]))
    as (Hv & _ & _ & Hm & _).
  - vm_compute. reflexivity.
  - split; [apply Hv|apply Hm].
Defined.

(** X11: each test on a field made of two lists put end to end is the
    disjunction of the tests on the two lists: adding items to a field
    never turns a true answer into false. *)
Theorem tests_distribute_over_append (regexp : RegexpPkg) :
  (forall (a b : list Verb) rs ps nss (v : Verb),
      HasVerb (mkRule (a ++ b) rs ps nss) v
      = HasVerb (mkRule a rs ps nss) v || HasVerb (mkRule b rs ps nss) v) /\
  (forall vs (a b : list Resource) ps nss (t : Resource),
      HasResourceType (mkRule vs (a ++ b) ps nss) t
      = HasResourceType (mkRule vs a ps nss) t
        || HasResourceType (mkRule vs b ps nss) t) /\
  (forall vs rs ps (a b : list string) (ns : string),
      HasNamespace (mkRule vs rs ps (a ++ b)) ns
      = HasNamespace (mkRule vs rs ps a) ns
        || HasNamespace (mkRule vs rs ps b) ns) /\
  (forall vs rs (a b : list string) nss (name : string),
      MatchesResourceName (mkRule vs rs (a ++ b) nss) name
      = MatchesResourceName (mkRule vs rs a nss) name
        || MatchesResourceName (mkRule vs rs b nss) name).
Proof.
  split; [|split; [|split]]; intros.
  - apply HasVerb_range_app.
  - apply HasResourceType_range_app.
  - apply HasNamespace_range_app.
  - apply MatchesResourceName_range_app.
Qed.

(** X12: [MatchesResourceName] is true exactly when one of the rule's
    patterns compiles to an expression that matches the name; the order of
    the patterns and their repetitions do not matter. *)
Theorem MatchesResourceName_iff_some_pattern (regexp : RegexpPkg) :
  (forall (r : Rule) (name : string),
      MatchesResourceName r name = true
      <-> exists (p : string) (re : Regexp),
            In p (ResourcePatterns r) /\ Compile p = Some re /\
            MatchString re name = true) /\
  (forall vs rs nss (ps qs : list string) (name : string),
      (forall p : string, In p ps <-> In p qs) ->
      MatchesResourceName (mkRule vs rs ps nss) name
      = MatchesResourceName (mkRule vs rs qs nss) name).
Proof.
  split.
  - intros r name. apply MatchesResourceName_range_iff.
  - intros vs rs nss ps qs name Hsame. apply eq_true_iff_eq.
    unfold MatchesResourceName. simpl.
    rewrite !MatchesResourceName_range_iff.
    split; intros (p & re & Hin & Hc & Hm); exists p, re;
      (split; [apply Hsame; exact Hin|auto]).
Qed.

Lemma MatchesResourceName_iff_some_pattern_witness :
  @MatchesResourceName RE2Fragment.engine
    (mkRule [] [] ["^a"; "b$"; "^a"] []) "ab"
  = @MatchesResourceName RE2Fragment.engine
      (mkRule [] [] ["b$"; "^a"] []) "ab".
Proof.
  destruct (MatchesResourceName_iff_some_pattern RE2Fragment.engine)
    as (_ & Hsame).
  apply Hsame. intros p. simpl. tauto.
Defined.

End RuleDecisions.

(** ** Desktop session handlers *)
Section HandlerFacts.
Import DesktopAPI.
Context {collaborators : Collaborators}.

Lemma lacks_false_iff (r : Request) (grant : Grants.RoleGrant) :
  lacks r grant = false <-> authorized r grant.
Proof.
  unfold lacks, authorized. destruct (session r) as [user|].
  - rewrite negb_false_iff. split.
    + intros Hg. exists user. auto.
    + intros (u & [= <-] & Hg). exact Hg.
  - split; [discriminate|]. intros (u & Hu & _). discriminate.
Qed.

Lemma lacks_true_iff (r : Request) (grant : Grants.RoleGrant) :
  lacks r grant = true <-> ~ authorized r grant.
Proof.
  rewrite <- lacks_false_iff. destruct (lacks r grant); split; congruence.
Qed.

(** The run of [GetDesktopSessionStatus] on an authorized request, by the
    answer of the cluster. *)
Lemma run_status_authorized (a : answers) (r : Request) :
  authorized r Grants.ReadDesktopSessions ->
  run a (GetDesktopSessionStatus r)
  = match get a (getNamespacedNameFromRequest r) with
    | inr err => ([CallGet (getNamespacedNameFromRequest r)], APIError err)
    | inl found =>
        ([CallGet (getNamespacedNameFromRequest r);
          CallLookupHost (DesktopShortURL found)],
         JSON (<["resolvable"%string :=
                   box_bool match lookupHost a (DesktopShortURL found) with
                            | None => true
                            | Some _ => false
                            end]>
                 (<["podPhase"%string := Status_PodPhase found]>
                    (<["running"%string := Status_Running found]> empty))))
    end.
Proof.
  intros Hauth. apply lacks_false_iff in Hauth.
  unfold GetDesktopSessionStatus. rewrite Hauth. cbn [run].
  destruct (get a (getNamespacedNameFromRequest r)) as [found|err];
    [|reflexivity].
  cbn [run]. destruct (lookupHost a (DesktopShortURL found)); reflexivity.
Qed.

Lemma run_delete_authorized (a : answers) (r : Request) :
  authorized r WriteDesktopSessions ->
  run a (DeleteDesktopSession r)
  = match get a (getNamespacedNameFromRequest r) with
    | inr err => ([CallGet (getNamespacedNameFromRequest r)], APIError err)
    | inl found =>
        ([CallGet (getNamespacedNameFromRequest r); CallDelete found],
         match delete a found with
         | Some err => APIError err
         | None => JSON (<["ok"%string := box_bool true]> empty)
         end)
    end.
Proof.
  intros Hauth. apply lacks_false_iff in Hauth.
  unfold DeleteDesktopSession. rewrite Hauth. cbn [run].
  destruct (get a (getNamespacedNameFromRequest r)) as [found|err];
    [|reflexivity].
  cbn [run]. destruct (delete a found); reflexivity.
Qed.

Lemma run_status_unauthorized (a : answers) (r : Request) :
  ~ authorized r Grants.ReadDesktopSessions ->
  run a (GetDesktopSessionStatus r)
  = ([], Forbidden "User does not have ReadDesktopSessions grant").
Proof.
  intros Hno. apply lacks_true_iff in Hno.
  unfold GetDesktopSessionStatus. rewrite Hno. reflexivity.
Qed.

Lemma run_delete_unauthorized (a : answers) (r : Request) :
  ~ authorized r WriteDesktopSessions ->
  run a (DeleteDesktopSession r)
  = ([], Forbidden "User does not have WriteDesktopSessions grant").
Proof.
  intros Hno. apply lacks_true_iff in Hno.
  unfold DeleteDesktopSession. rewrite Hno. reflexivity.
Qed.

Lemma authorized_dec (r : Request) (grant : Grants.RoleGrant) :
  authorized r grant \/ ~ authorized r grant.
Proof.
  destruct (lacks r grant) eqn:E.
  - right. apply lacks_true_iff. exact E.
  - left. apply lacks_false_iff. exact E.
Qed.


(** X14: each handler answers Forbidden exactly when the request has no
    session or the session's user lacks the handler's grant, and then it
    makes no call at all; otherwise its first call gets the desktop named
    by the request. *)
Theorem handlers_forbidden_iff_unauthorized (a : answers) (r : Request) :
  ((exists msg, snd (run a (GetDesktopSessionStatus r)) = Forbidden msg)
   <-> ~ authorized r Grants.ReadDesktopSessions) /\
  (~ authorized r Grants.ReadDesktopSessions ->
   fst (run a (GetDesktopSessionStatus r)) = []) /\
  (authorized r Grants.ReadDesktopSessions ->
   head (fst (run a (GetDesktopSessionStatus r)))
   = Some (CallGet (getNamespacedNameFromRequest r))) /\
  ((exists msg, snd (run a (DeleteDesktopSession r)) = Forbidden msg)
   <-> ~ authorized r WriteDesktopSessions) /\
  (~ authorized r WriteDesktopSessions ->
   fst (run a (DeleteDesktopSession r)) = []) /\
  (authorized r WriteDesktopSessions ->
   head (fst (run a (DeleteDesktopSession r)))
   = Some (CallGet (getNamespacedNameFromRequest r))).
Proof.
  repeat split.
  - intros [msg Hmsg] Hauth. rewrite (run_status_authorized a r Hauth) in Hmsg.
    destruct (get a _); discriminate.
  - intros Hno. rewrite (run_status_unauthorized a r Hno). eauto.
  - intros Hno. rewrite (run_status_unauthorized a r Hno). reflexivity.
  - intros Hauth. rewrite (run_status_authorized a r Hauth).
    destruct (get a _); reflexivity.
  - intros [msg Hmsg] Hauth. rewrite (run_delete_authorized a r Hauth) in Hmsg.
    destruct (get a _) as [found|]; [|discriminate].
    simpl in Hmsg. destruct (delete a found); discriminate.
  - intros Hno. rewrite (run_delete_unauthorized a r Hno). eauto.
  - intros Hno. rewrite (run_delete_unauthorized a r Hno). reflexivity.
  - intros Hauth. rewrite (run_delete_authorized a r Hauth).
    destruct (get a _); reflexivity.
Qed.

(** X15: [DeleteDesktopSession] asks the cluster to delete a desktop only
    for a session whose user has the grant, only the desktop the cluster
    returned for the name in the request, and at most once;
    [GetDesktopSessionStatus] never asks for a deletion. *)
Theorem deletion_only_when_authorized (a : answers) (r : Request) :
  (forall found : Desktop,
      In (CallDelete found) (fst (run a (DeleteDesktopSession r))) ->
      authorized r WriteDesktopSessions /\
      get a (getNamespacedNameFromRequest r) = inl found /\
      fst (run a (DeleteDesktopSession r))
      = [CallGet (getNamespacedNameFromRequest r); CallDelete found]) /\
  (forall found : Desktop,
      ~ In (CallDelete found) (fst (run a (GetDesktopSessionStatus r)))).
Proof.
  split.
  - intros found Hin.
    destruct (authorized_dec r WriteDesktopSessions) as [Hauth|Hno].
    + split; [exact Hauth|].
      rewrite (run_delete_authorized a r Hauth) in *.
      destruct (get a _) as [found'|err]; simpl in Hin.
      * destruct Hin as [Hin|[Hin|[]]]; [discriminate|].
        injection Hin as ->. split; reflexivity.
      * destruct Hin as [Hin|[]]. discriminate.
    + rewrite (run_delete_unauthorized a r Hno) in Hin. destruct Hin.
  - intros found Hin.
    destruct (authorized_dec r Grants.ReadDesktopSessions) as [Hauth|Hno].
    + rewrite (run_status_authorized a r Hauth) in Hin.
      destruct (get a _) as [found'|err]; simpl in Hin.
      * destruct Hin as [Hin|[Hin|[]]]; discriminate.
      * destruct Hin as [Hin|[]]. discriminate.
    + rewrite (run_status_unauthorized a r Hno) in Hin. destruct Hin.
Qed.

(** X16: [DeleteDesktopSession] writes a JSON body, and then it is
    [{"ok": true}], exactly when the request is authorized, the desktop
    was found and its deletion returned no error; an error of the lookup
    or of the deletion is the response, and after a failed lookup nothing
    is deleted. *)
Theorem DeleteDesktopSession_outcomes (a : answers) (r : Request) :
  (forall res,
      snd (run a (DeleteDesktopSession r)) = JSON res
      <-> res = <["ok"%string := box_bool true]> empty /\
          authorized r WriteDesktopSessions /\
          exists found : Desktop,
            get a (getNamespacedNameFromRequest r) = inl found /\
            delete a found = None) /\
  (forall err,
      authorized r WriteDesktopSessions ->
      get a (getNamespacedNameFromRequest r) = inr err ->
      run a (DeleteDesktopSession r)
      = ([CallGet (getNamespacedNameFromRequest r)], APIError err)) /\
  (forall found err,
      authorized r WriteDesktopSessions ->
      get a (getNamespacedNameFromRequest r) = inl found ->
      delete a found = Some err ->
      snd (run a (DeleteDesktopSession r)) = APIError err).
Proof.
  split; [|split].
  - intros res.
    destruct (authorized_dec r WriteDesktopSessions) as [Hauth|Hno].
    + rewrite (run_delete_authorized a r Hauth).
      destruct (get a _) as [found|err]; simpl.
      * destruct (delete a found) as [err|] eqn:Hdel; split.
        -- discriminate.
        -- intros (_ & _ & found' & [= <-] & Hdel'). congruence.
        -- intros [= <-]. split; [reflexivity|]. split; [exact Hauth|].
           exists found. auto.
        -- intros (-> & _). reflexivity.
      * split; [discriminate|]. intros (_ & _ & found & Hget & _).
        discriminate.
    + rewrite (run_delete_unauthorized a r Hno). simpl.
      split; [discriminate|]. intros (_ & Hauth & _). contradiction.
  - intros err Hauth Hget. rewrite (run_delete_authorized a r Hauth), Hget.
    reflexivity.
  - intros found err Hauth Hget Hdel.
    rewrite (run_delete_authorized a r Hauth), Hget. simpl. rewrite Hdel.
    reflexivity.
Qed.

(** X17: for an authorized request whose desktop is found,
    [GetDesktopSessionStatus] looks the desktop's host up once and writes
    a body with exactly the keys ["running"], ["podPhase"] and
    ["resolvable"]: the two status fields of the desktop, and whether the
    lookup returned no error.  A host that does not resolve is not an
    error response; a desktop that is not found is. *)
Theorem GetDesktopSessionStatus_body (a : answers) (r : Request) :
  authorized r Grants.ReadDesktopSessions ->
  (forall found : Desktop,
      get a (getNamespacedNameFromRequest r) = inl found ->
      exists res : gmap string value,
        run a (GetDesktopSessionStatus r)
        = ([CallGet (getNamespacedNameFromRequest r);
            CallLookupHost (DesktopShortURL found)], JSON res) /\
        res !! "running"%string = Some (Status_Running found) /\
        res !! "podPhase"%string = Some (Status_PodPhase found) /\
        res !! "resolvable"%string
        = Some (box_bool match lookupHost a (DesktopShortURL found) with
                         | None => true
                         | Some _ => false
                         end) /\
        (forall k : string,
            is_Some (res !! k)
            <-> k = "running"%string \/ k = "podPhase"%string \/
                k = "resolvable"%string)) /\
  (forall err,
      get a (getNamespacedNameFromRequest r) = inr err ->
      run a (GetDesktopSessionStatus r)
      = ([CallGet (getNamespacedNameFromRequest r)], APIError err)).
Proof.
  intros Hauth. rewrite (run_status_authorized a r Hauth). split.
  - intros found ->. eexists. split; [reflexivity|].
    split; [rewrite lookup_insert_ne by discriminate;
            rewrite lookup_insert_ne by discriminate;
            apply lookup_insert_eq|].
    split; [rewrite lookup_insert_ne by discriminate;
            apply lookup_insert_eq|].
    split; [apply lookup_insert_eq|].
    intros k. rewrite !lookup_insert_is_Some, lookup_empty, is_Some_alt.
    split.
    + intros [<- | [_ [<- | [_ [<- | [_ []]]]]]]; auto.
    + intros [-> | [-> | ->]].
      * right. split; [discriminate|]. right. split; [discriminate|].
        left. reflexivity.
      * right. split; [discriminate|]. left. reflexivity.
      * left. reflexivity.
  - intros err ->. reflexivity.
Qed.

End HandlerFacts.

Section HandlerRuns.
Import DesktopAPI.


Lemma handlers_forbidden_iff_unauthorized_witness :
  fst (run sample_answers
         (DeleteDesktopSession (sample_request Grants.All "web"))) = [] /\
  head (fst (run sample_answers
               (GetDesktopSessionStatus (sample_request Grants.All "web"))))
  = Some (CallGet (mkNamespacedName "web" "default")).
Proof.
  destruct (@handlers_forbidden_iff_unauthorized sample sample_answers
              (sample_request Grants.All "web"))
    as (_ & _ & Hfirst & _ & Hnone & _).
  split.
  - apply Hnone. intros (user & [= <-] & Hgrant). discriminate.
  - apply Hfirst. exists Grants.All. split; reflexivity.
Defined.

Lemma deletion_only_when_authorized_witness :
  @authorized sample (sample_request (Z.shiftl 1 8) "web")
     WriteDesktopSessions /\
  get sample_answers
    (getNamespacedNameFromRequest (sample_request (Z.shiftl 1 8) "web"))
  = inl (mkDesktop "web" true "Running") /\
  fst (run sample_answers
         (DeleteDesktopSession (sample_request (Z.shiftl 1 8) "web")))
  = [CallGet (getNamespacedNameFromRequest
                (sample_request (Z.shiftl 1 8) "web"));
     CallDelete (mkDesktop "web" true "Running")].
Proof.
  destruct (@deletion_only_when_authorized sample sample_answers
              (sample_request (Z.shiftl 1 8) "web")) as (Honly & _).
  apply Honly. vm_compute. right. left. reflexivity.
Defined.

Lemma DeleteDesktopSession_outcomes_witness :
  run sample_answers
    (DeleteDesktopSession (sample_request (Z.shiftl 1 8) "gone"))
  = ([CallGet (getNamespacedNameFromRequest
                 (sample_request (Z.shiftl 1 8) "gone"))],
     APIError "not found"%string).
Proof.
  destruct (@DeleteDesktopSession_outcomes sample sample_answers
              (sample_request (Z.shiftl 1 8) "gone")) as (_ & Hget & _).
  apply Hget.
  - exists (Z.shiftl 1 8). split; reflexivity.
  - reflexivity.
Defined.

Lemma GetDesktopSessionStatus_body_witness :
  exists res : gmap string sample_value,
    run sample_answers
      (GetDesktopSessionStatus (sample_request Grants.ReadDesktopSessions "web"))
    = ([CallGet (getNamespacedNameFromRequest
                   (sample_request Grants.ReadDesktopSessions "web"));
        CallLookupHost "web"], JSON res) /\
    res !! "running"%string = Some (Bool true) /\
    res !! "podPhase"%string = Some (Str "Running") /\
    res !! "resolvable"%string = Some (Bool false).
Proof.
  destruct (@GetDesktopSessionStatus_body sample sample_answers
              (sample_request Grants.ReadDesktopSessions "web"))
    as (Hfound & _).
  - exists Grants.ReadDesktopSessions. split; reflexivity.
  - destruct (Hfound (mkDesktop "web" true "Running") eq_refl)
      as (res & Hrun & Hrunning & Hphase & Hres & _).
    exists res. auto.
Defined.

End HandlerRuns.
